(** * aw_datastore.datastore: the Datastore / Bucket facade

    A shallow embedding of [aw_datastore/datastore.py].  The facade owns a
    storage strategy (an external collaborator, here a type class), a cache
    of bucket handles, and translates [get] / [insert] calls after
    normalising timestamps.

    Layout: the Python values the module touches ([datetime], [Event],
    exceptions), a state-and-exception monad, the storage interface, the
    two classes of the module, a reference in-memory storage, and then the
    properties. *)

From Stdlib Require Import ZArith Lia List Bool.
From stdpp Require Import base option list gmap strings.

Import ListNotations.

(** ** Exceptions and results *)

Inductive exn : Type :=
  | KeyError
  | TypeError
  | AssertionError
  | OverflowError
  | ValueError
  | IndexError
  | AttributeError
  | StorageError (what : string).

Inductive result (A : Type) : Type :=
  | Ok (a : A)
  | Raise (e : exn).
Arguments Ok {A} a.
Arguments Raise {A} e.

Definition is_ok {A} (r : result A) : bool :=
  match r with Ok _ => true | Raise _ => false end.

(** ** [datetime.datetime]

    The fields of a Python [datetime].  [tzinfo] is left out: [replace],
    [+ timedelta] and [isoformat] carry it along unchanged, and the spec's
    data model has every timestamp in UTC, where comparison is the
    comparison of the field tuples. *)

Module PyDatetime.
Local Open Scope Z_scope.

Record datetime : Type := mk_datetime {
  year : Z; month : Z; day : Z;
  hour : Z; minute : Z; second : Z;
  microsecond : Z
}.

Definition MINYEAR : Z := 1.
Definition MAXYEAR : Z := 9999.

Definition is_leap (y : Z) : bool :=
  (y mod 4 =? 0) && (negb (y mod 100 =? 0) || (y mod 400 =? 0)).

Definition days_in_month (y m : Z) : Z :=
  if m =? 2 then (if is_leap y then 29 else 28)
  else if (m =? 4) || (m =? 6) || (m =? 9) || (m =? 11) then 30
  else 31.

(** What the constructor checks: every [datetime] object satisfies it. *)
Definition valid (d : datetime) : Prop :=
  MINYEAR <= year d <= MAXYEAR /\
  1 <= month d <= 12 /\
  1 <= day d <= days_in_month (year d) (month d) /\
  0 <= hour d <= 23 /\
  0 <= minute d <= 59 /\
  0 <= second d <= 59 /\
  0 <= microsecond d <= 999999.

Definition validb (d : datetime) : bool :=
  (MINYEAR <=? year d) && (year d <=? MAXYEAR) &&
  (1 <=? month d) && (month d <=? 12) &&
  (1 <=? day d) && (day d <=? days_in_month (year d) (month d)) &&
  (0 <=? hour d) && (hour d <=? 23) &&
  (0 <=? minute d) && (minute d <=? 59) &&
  (0 <=? second d) && (second d <=? 59) &&
  (0 <=? microsecond d) && (microsecond d <=? 999999).

(** [d.replace(microsecond=us)]: a new object, all other fields kept;
    [ValueError] when [us] is not in [0..999999]. *)
Definition replace_microsecond (d : datetime) (us : Z) : result datetime :=
  if (0 <=? us) && (us <=? 999999) then
    Ok (mk_datetime (year d) (month d) (day d) (hour d) (minute d) (second d) us)
  else Raise ValueError.

(** [d + timedelta(seconds=1)]: the carry runs through minute, hour, day,
    month and year; past year [MAXYEAR] Python raises [OverflowError]. *)
Definition add_one_second (d : datetime) : result datetime :=
  let us := microsecond d in
  if second d <? 59 then
    Ok (mk_datetime (year d) (month d) (day d) (hour d) (minute d) (second d + 1) us)
  else if minute d <? 59 then
    Ok (mk_datetime (year d) (month d) (day d) (hour d) (minute d + 1) 0 us)
  else if hour d <? 23 then
    Ok (mk_datetime (year d) (month d) (day d) (hour d + 1) 0 0 us)
  else if day d <? days_in_month (year d) (month d) then
    Ok (mk_datetime (year d) (month d) (day d + 1) 0 0 0 us)
  else if month d <? 12 then
    Ok (mk_datetime (year d) (month d + 1) 1 0 0 0 us)
  else if year d <? MAXYEAR then
    Ok (mk_datetime (year d + 1) 1 1 0 0 0 us)
  else Raise OverflowError.

(** Comparison is that of the tuples
    [(year, month, day, hour, minute, second, microsecond)]. *)
Definition fields (d : datetime) : list Z :=
  [year d; month d; day d; hour d; minute d; second d; microsecond d].

Fixpoint tuple_cmp (a b : list Z) : comparison :=
  match a, b with
  | [], [] => Eq
  | [], _ :: _ => Lt
  | _ :: _, [] => Gt
  | x :: a', y :: b' =>
      match Z.compare x y with
      | Eq => tuple_cmp a' b'
      | c => c
      end
  end.

Definition dt_cmp (a b : datetime) : comparison := tuple_cmp (fields a) (fields b).

(** [a < b] and [a <= b] on datetimes. *)
Definition dt_lt (a b : datetime) : bool :=
  match dt_cmp a b with Lt => true | _ => false end.
Definition dt_le (a b : datetime) : bool :=
  match dt_cmp a b with Gt => false | _ => true end.

(** [int(x)] truncates toward zero.  [us / 1000] is Python's true
    division; on the integers [0..999999] the float quotient is within
    [1e-12] of the exact one and never crosses an integer, so the
    truncation is that of the exact quotient. *)
Definition int_div_1000 (us : Z) : Z := Z.quot us 1000.
(** [int(us / 1000 + 1)]: the exact value is [(us + 1000) / 1000]. *)
Definition int_div_1000_plus_1 (us : Z) : Z := Z.quot (us + 1000) 1000.

(** *** [isoformat()] of a UTC datetime *)

Definition digit (n : Z) : string :=
  match n with
  | 0 => "0" | 1 => "1" | 2 => "2" | 3 => "3" | 4 => "4"
  | 5 => "5" | 6 => "6" | 7 => "7" | 8 => "8" | _ => "9"
  end%string.

(** [n] written with exactly [w] decimal digits (zero padded). *)
Fixpoint pad (w : nat) (n : Z) : string :=
  match w with
  | O => EmptyString
  | S w' => (pad w' (n / 10) +:+ digit (n mod 10))%string
  end.

Definition isoformat (d : datetime) : string :=
  (pad 4 (year d) +:+ "-" +:+ pad 2 (month d) +:+ "-" +:+ pad 2 (day d) +:+ "T" +:+
   pad 2 (hour d) +:+ ":" +:+ pad 2 (minute d) +:+ ":" +:+ pad 2 (second d) +:+
   (if (microsecond d =? 0)%Z then EmptyString else "." +:+ pad 6 (microsecond d)) +:+
   "+00:00")%string.

End PyDatetime.
Import PyDatetime.


(** ** Events, bucket metadata, handles *)

(** [aw_core.models.Event]: a dict with the keys below ([k['timestamp']] and
    [k.timestamp] read the same entry). *)
Record Event : Type := mk_event {
  event_id : option Z;
  timestamp : datetime;
  duration : Z;
  event_data : list (string * string)
}.

(** [bool(event)]: an [Event] always holds its ['timestamp'] key, so as a
    dict it is never empty. *)
Definition event_truthy (e : Event) : bool := true.

(** [bool(x)] for [x] that is [None] or an [Event]. *)
Definition truthy (x : option Event) : bool :=
  match x with
  | None => false
  | Some e => event_truthy e
  end.

(** What a plain dict can hold under ['timestamp']: a datetime as events
    have it (aware, UTC), a datetime without [tzinfo], or a value of another
    type altogether. *)
Inductive PyValue : Type :=
  | VDatetime (d : datetime)
  | VNaive (d : datetime)
  | VInt (n : Z)
  | VStr (s : string).

(** [a < b] between two such values.  Values of one kind compare; an [int]
    against a [str], a datetime against either, and an aware datetime
    against a naive one raise [TypeError]. *)
Definition value_lt (a b : PyValue) : result bool :=
  match a, b with
  | VDatetime x, VDatetime y => Ok (dt_lt x y)
  | VNaive x, VNaive y => Ok (dt_lt x y)
  | VInt x, VInt y => Ok (x <? y)%Z
  | VStr x, VStr y => Ok (String.ltb x y)
  | _, _ => Raise TypeError
  end.

(** What a Python [list] handed to [insert] can hold.  Nothing checks the
    elements, so besides events there are plain dicts (given by their
    ['timestamp'] entry, if they have one, and their other keys) and objects
    that cannot be subscripted, such as an [int]. *)
Inductive Item : Type :=
  | ItemEvent (e : Event)
  | ItemDict (timestamp_entry : option PyValue) (other_keys : list string)
  | ItemInt (n : Z).

(** [k['timestamp']] *)
Definition getitem_timestamp (k : Item) : result PyValue :=
  match k with
  | ItemEvent e => Ok (VDatetime (timestamp e))
  | ItemDict (Some t) _ => Ok t
  | ItemDict None _ => Raise KeyError
  | ItemInt _ => Raise TypeError
  end.

(** [k.timestamp]: only an [Event] has the attribute. *)
Definition getattr_timestamp (k : Item) : result datetime :=
  match k with
  | ItemEvent e => Ok (timestamp e)
  | _ => Raise AttributeError
  end.

(** [bool(x)] for [x] that is [None] or an element of the list. *)
Definition item_truthy (x : option Item) : bool :=
  match x with
  | None => false
  | Some (ItemEvent e) => event_truthy e
  | Some (ItemDict None []) => false
  | Some (ItemDict _ _) => true
  | Some (ItemInt n) => negb (n =? 0)%Z
  end.

Record Metadata : Type := mk_metadata {
  meta_id : string;
  meta_type : string;
  meta_client : string;
  meta_hostname : string;
  meta_created : string;
  meta_name : option string
}.

(** A [Bucket] object.  [handle] is the identity of the object (two
    constructions give two objects); [self.ds] is the one Datastore of the
    state and [self.logger] is the child logger ["Bucket"]. *)
Record Bucket : Type := mk_bucket {
  handle : nat;
  bucket_id : string
}.

(** What [Bucket.insert] can be handed: an [Event], a [list], or any other
    object. *)
Inductive OtherObject : Type :=
  | ONone
  | OInt (n : Z)
  | OStr (s : string)
  | ODict (entries : list (string * string))
  | OTuple (l : list Event).

Inductive InsertArg : Type :=
  | ArgEvent (e : Event)
  | ArgList (l : list Item)
  | ArgOther (o : OtherObject).

(** [Union[Event, List[Event]]], the value [insert] returns. *)
Inductive Inserted : Type :=
  | InsertedOne (e : Event)
  | InsertedMany (l : list Event).

(** ** Logging and the trace of storage calls *)

Inductive LogLevel : Type := INFO | WARNING | ERROR.

Inductive LogMessage : Type :=
  | MsgCannotCreate (bucket_id : string)
  | MsgCreating (bucket_id : string)
  | MsgDeleting (bucket_id : string)
  | MsgOlderTimestamp (previous : Event) (inserted : Item).

Record LogRecord : Type := mk_log {
  logger_name : string;
  level : LogLevel;
  message : LogMessage
}.

Inductive StorageCall : Type :=
  | CallCreateBucket (bucket_id type client hostname created : string) (name : option string)
  | CallDeleteBucket (bucket_id : string)
  | CallBuckets
  | CallGetMetadata (bucket_id : string)
  | CallGetEvents (bucket_id : string) (limit : Z) (starttime endtime : option datetime)
  | CallInsertOne (bucket_id : string) (event : Event)
  | CallInsertMany (bucket_id : string) (events : list Item)
  | CallReplaceLast (bucket_id : string) (event : Event)
  | CallReplace (bucket_id : string) (event_id : Z) (event : Event).

Definition is_insert_call (c : StorageCall) : bool :=
  match c with
  | CallInsertOne _ _ | CallInsertMany _ _ => true
  | _ => false
  end.

Definition is_warning (r : LogRecord) : bool :=
  match level r with WARNING => true | _ => false end.

(** ** The storage strategy ([AbstractStorage])

    Each operation runs on the storage's own state and either returns or
    raises; a raise can still have changed the state. *)
Class AbstractStorage (S : Type) : Type := {
  storage_create_bucket :
    string -> string -> string -> string -> string -> option string -> S -> result unit * S;
  storage_delete_bucket : string -> S -> result unit * S;
  storage_buckets : S -> result (gmap string Metadata) * S;
  storage_get_metadata : string -> S -> result Metadata * S;
  storage_get_events :
    string -> Z -> option datetime -> option datetime -> S -> result (list Event) * S;
  storage_insert_one : string -> Event -> S -> result Event * S;
  storage_insert_many : string -> list Item -> S -> result (list Event) * S;
  storage_replace_last : string -> Event -> S -> result unit * S;
  storage_replace : string -> Z -> Event -> S -> result unit * S
}.

(** ** Program state

    [storage_strategy] and [bucket_instances] are the attributes of the
    [Datastore] object; the rest is the environment it runs in:
    the calls made on the storage so far, the log, the allocator of object
    identities, the clock ([datetime.now(timezone.utc)]), and the default of
    [create_bucket]'s [created] parameter, which Python evaluates once, when
    the [def] statement runs at import. *)
Record State (S : Type) : Type := mk_state {
  storage_strategy : S;
  bucket_instances : gmap string Bucket;
  storage_calls : list StorageCall;
  log_records : list LogRecord;
  next_handle : nat;
  clock : datetime;
  create_bucket_default_created : datetime
}.
Arguments mk_state {S}.
Arguments storage_strategy {S}.
Arguments bucket_instances {S}.
Arguments storage_calls {S}.
Arguments log_records {S}.
Arguments next_handle {S}.
Arguments clock {S}.
Arguments create_bucket_default_created {S}.

(** ** The state and exception monad *)

Definition M (S A : Type) : Type := State S -> result A * State S.

Definition ret {S A} (a : A) : M S A := fun w => (Ok a, w).

Definition raise {S A} (e : exn) : M S A := fun w => (Raise e, w).

Definition bind {S A B} (m : M S A) (k : A -> M S B) : M S B :=
  fun w =>
    match m w with
    | (Ok a, w') => k a w'
    | (Raise e, w') => (Raise e, w')
    end.

Notation "'let!' x ':=' m 'in' k" := (bind m (fun x => k))
  (at level 10, x pattern, m at level 100, k at level 200).

Definition lift {S A} (r : result A) : M S A := fun w => (r, w).

(** [assert b] *)
Definition py_assert {S} (b : bool) : M S unit :=
  if b then ret tt else raise AssertionError.

(** [l[0]] *)
Definition index0 {A} (l : list A) : result A :=
  match l with
  | x :: _ => Ok x
  | [] => Raise IndexError
  end.

(** [sorted(events, key=lambda k: k['timestamp'])].  Python first computes
    the key of every element, in order, and stops at the first one that
    raises; then it sorts on the keys: ascending, stable, and built on [<]
    between keys only, so that a [<] that raises ends the sort with that
    error.  The insertion sort below has the same properties: it returns the
    one stable ascending order when the keys compare with each other, and
    raises [TypeError] when two of them do not (any sort has to compare
    across the kinds present, and every such comparison raises). *)
Fixpoint decorate (events : list Item) : result (list (PyValue * Item)) :=
  match events with
  | [] => Ok []
  | k :: events' =>
      match getitem_timestamp k with
      | Ok t =>
          match decorate events' with
          | Ok l => Ok ((t, k) :: l)
          | Raise e => Raise e
          end
      | Raise e => Raise e
      end
  end.

Fixpoint insert_by_key (x : PyValue * Item) (l : list (PyValue * Item))
    : result (list (PyValue * Item)) :=
  match l with
  | [] => Ok [x]
  | y :: l' =>
      match value_lt (fst y) (fst x) with
      | Ok true =>
          match insert_by_key x l' with
          | Ok r => Ok (y :: r)
          | Raise e => Raise e
          end
      | Ok false => Ok (x :: y :: l')
      | Raise e => Raise e
      end
  end.

Fixpoint sort_by_key (l : list (PyValue * Item)) : result (list (PyValue * Item)) :=
  match l with
  | [] => Ok []
  | x :: l' =>
      match sort_by_key l' with
      | Ok s => insert_by_key x s
      | Raise e => Raise e
      end
  end.

Definition sorted (events : list Item) : result (list Item) :=
  match decorate events with
  | Ok l =>
      match sort_by_key l with
      | Ok s => Ok (map snd s)
      | Raise e => Raise e
      end
  | Raise e => Raise e
  end.

(** The same sort where every key is a datetime of one kind, so that no
    comparison can raise: on any elements, with [key] giving the datetime. *)
Fixpoint insert_sorted {A} (key : A -> datetime) (x : A) (l : list A) : list A :=
  match l with
  | [] => [x]
  | y :: l' =>
      if dt_lt (key y) (key x) then y :: insert_sorted key x l'
      else x :: y :: l'
  end.

Definition sort_by {A} (key : A -> datetime) (l : list A) : list A :=
  foldr (insert_sorted key) [] l.

(** ** The module *)

Section Facade.
Context {S : Type} `{AbstractStorage S}.

Definition read {A} (f : State S -> A) : M S A := fun w => (Ok (f w), w).

(** A call on [self.storage_strategy]: recorded in the trace, run on the
    storage's state. *)
Definition call_storage {A} (c : StorageCall) (op : S -> result A * S) : M S A :=
  fun w =>
    let (r, s') := op (storage_strategy w) in
    (r, mk_state s' (bucket_instances w) (storage_calls w ++ [c]) (log_records w)
          (next_handle w) (clock w) (create_bucket_default_created w)).

(** [logger.getChild(name).<level>(msg)] *)
Definition logger (name : string) (lvl : LogLevel) (msg : LogMessage) : M S unit :=
  fun w =>
    (Ok tt, mk_state (storage_strategy w) (bucket_instances w) (storage_calls w)
              (log_records w ++ [mk_log name lvl msg])
              (next_handle w) (clock w) (create_bucket_default_created w)).

(** [Bucket(self, bucket_id)]: a new object. *)
Definition Bucket_init (bucket_id : string) : M S Bucket :=
  fun w =>
    (Ok (mk_bucket (next_handle w) bucket_id),
     mk_state (storage_strategy w) (bucket_instances w) (storage_calls w) (log_records w)
       (Datatypes.S (next_handle w)) (clock w) (create_bucket_default_created w)).

(** [self.bucket_instances[bucket_id] = bucket] *)
Definition set_bucket_instance (bucket_id : string) (bucket : Bucket) : M S unit :=
  fun w =>
    (Ok tt, mk_state (storage_strategy w) (<[bucket_id := bucket]> (bucket_instances w))
              (storage_calls w) (log_records w)
              (next_handle w) (clock w) (create_bucket_default_created w)).

(** [del self.bucket_instances[bucket_id]] *)
Definition del_bucket_instance (bucket_id : string) : M S unit :=
  fun w =>
    match bucket_instances w !! bucket_id with
    | Some _ =>
        (Ok tt, mk_state (storage_strategy w) (delete bucket_id (bucket_instances w))
                  (storage_calls w) (log_records w)
                  (next_handle w) (clock w) (create_bucket_default_created w))
    | None => (Raise KeyError, w)
    end.

(** *** class Datastore *)

Definition Datastore_buckets : M S (gmap string Metadata) :=
  call_storage CallBuckets storage_buckets.

Definition Datastore_getitem (bucket_id : string) : M S Bucket :=
  let! instances := read bucket_instances in
  let! _ :=
    match instances !! bucket_id with
    | None =>
        let! listing := Datastore_buckets in
        match listing !! bucket_id with
        | Some _ =>
            let! bucket := Bucket_init bucket_id in
            set_bucket_instance bucket_id bucket
        | None =>
            let! _ := logger "Datastore" ERROR (MsgCannotCreate bucket_id) in
            raise KeyError
        end
    | Some _ => ret tt
    end in
  let! instances := read bucket_instances in
  match instances !! bucket_id with
  | Some bucket => ret bucket
  | None => raise KeyError
  end.

(** [created = None] stands for a call that omits the argument. *)
Definition Datastore_create_bucket (bucket_id type client hostname : string)
    (created : option datetime) (name : option string) : M S Bucket :=
  let! default := read create_bucket_default_created in
  let created := match created with Some c => c | None => default end in
  let! _ := logger "Datastore" INFO (MsgCreating bucket_id) in
  let! _ := call_storage
              (CallCreateBucket bucket_id type client hostname (isoformat created) name)
              (storage_create_bucket bucket_id type client hostname (isoformat created) name) in
  Datastore_getitem bucket_id.

Definition Datastore_delete_bucket (bucket_id : string) : M S unit :=
  let! _ := logger "Datastore" INFO (MsgDeleting bucket_id) in
  let! instances := read bucket_instances in
  let! _ :=
    match instances !! bucket_id with
    | Some _ => del_bucket_instance bucket_id
    | None => ret tt
    end in
  call_storage (CallDeleteBucket bucket_id) (storage_delete_bucket bucket_id).

(** *** class Bucket *)

Definition Bucket_metadata (self : Bucket) : M S Metadata :=
  call_storage (CallGetMetadata (bucket_id self)) (storage_get_metadata (bucket_id self)).

(** Lines 64-65 of [get]: a [datetime] is always truthy, so the branch is
    taken exactly when [starttime] is not [None]. *)
Definition normalize_starttime (starttime : option datetime) : result (option datetime) :=
  match starttime with
  | Some st =>
      match replace_microsecond st (1000 * int_div_1000 (microsecond st)) with
      | Ok st' => Ok (Some st')
      | Raise e => Raise e
      end
  | None => Ok None
  end.

(** Lines 66-71 of [get]. *)
Definition normalize_endtime (endtime : option datetime) : result (option datetime) :=
  match endtime with
  | Some en =>
      let microseconds := (1000 * int_div_1000_plus_1 (microsecond en))%Z in
      if (microseconds >? 999999)%Z then
        match replace_microsecond en 0 with
        | Ok en0 =>
            match add_one_second en0 with
            | Ok en' => Ok (Some en')
            | Raise e => Raise e
            end
        | Raise e => Raise e
        end
      else
        match replace_microsecond en microseconds with
        | Ok en' => Ok (Some en')
        | Raise e => Raise e
        end
  | None => Ok None
  end.

Definition Bucket_get (self : Bucket) (limit : Z) (starttime endtime : option datetime)
    : M S (list Event) :=
  let! starttime := lift (normalize_starttime starttime) in
  let! endtime := lift (normalize_endtime endtime) in
  call_storage (CallGetEvents (bucket_id self) limit starttime endtime)
    (storage_get_events (bucket_id self) limit starttime endtime).

Definition Bucket_insert (self : Bucket) (events : InsertArg) : M S Inserted :=
  let! last_event_list := Bucket_get self 1 None None in
  let! last_event :=
    if (0 <? length last_event_list)%nat then
      let! e := lift (index0 last_event_list) in ret (Some e)
    else ret None in
  let! r :=
    match events with
    | ArgEvent ev =>
        let oldest_event := Some (ItemEvent ev) in
        let! inserted := call_storage (CallInsertOne (bucket_id self) ev)
                           (storage_insert_one (bucket_id self) ev) in
        let! _ := py_assert (event_truthy inserted) in
        ret (oldest_event, InsertedOne inserted)
    | ArgList l =>
        let! oldest_event :=
          if (0 <? length l)%nat then
            let! s := lift (sorted l) in
            let! e := lift (index0 s) in ret (Some e)
          else ret None in
        let! inserted := call_storage (CallInsertMany (bucket_id self) l)
                           (storage_insert_many (bucket_id self) l) in
        ret (oldest_event, InsertedMany inserted)
    | ArgOther _ => raise TypeError
    end in
  let '(oldest_event, inserted) := r in
  let! _ :=
    if truthy last_event && item_truthy oldest_event then
      match last_event, oldest_event with
      | Some le, Some oe =>
          let! oldest_timestamp := lift (getattr_timestamp oe) in
          if dt_lt oldest_timestamp (timestamp le) then
            logger "Bucket" WARNING (MsgOlderTimestamp le oe)
          else ret tt
      | _, _ => ret tt
      end
    else ret tt in
  ret inserted.

Definition Bucket_replace_last (self : Bucket) (event : Event) : M S unit :=
  call_storage (CallReplaceLast (bucket_id self) event)
    (storage_replace_last (bucket_id self) event).

Definition Bucket_replace (self : Bucket) (event_id : Z) (event : Event) : M S unit :=
  call_storage (CallReplace (bucket_id self) event_id event)
    (storage_replace (bucket_id self) event_id event).

End Facade.

(** [Datastore(storage_strategy)] in a module imported at [imported_at]:
    nothing cached, nothing called, nothing logged. *)
Definition Datastore_init {S} (storage : S) (imported_at now : datetime) : State S :=
  mk_state storage ∅ [] [] 0 now imported_at.

(** Time passes: the clock moves, nothing else does. *)
Definition set_clock {S} (now : datetime) : M S unit :=
  fun w =>
    (Ok tt, mk_state (storage_strategy w) (bucket_instances w) (storage_calls w)
              (log_records w) (next_handle w) now (create_bucket_default_created w)).

(** ** Sequences of Datastore operations *)

Inductive Op : Type :=
  | OpLookup (bucket_id : string)
  | OpCreateBucket (bucket_id type client hostname : string)
      (created : option datetime) (name : option string)
  | OpDeleteBucket (bucket_id : string)
  | OpBuckets.

Section Runs.
Context {S : Type} `{AbstractStorage S}.

(** One operation; the caller catches whatever it raises and goes on. *)
Definition run_op (o : Op) (w : State S) : State S :=
  match o with
  | OpLookup b => snd (Datastore_getitem b w)
  | OpCreateBucket b t c h created name => snd (Datastore_create_bucket b t c h created name w)
  | OpDeleteBucket b => snd (Datastore_delete_bucket b w)
  | OpBuckets => snd (Datastore_buckets w)
  end.

Definition run_ops (ops : list Op) (w : State S) : State S :=
  fold_left (fun w o => run_op o w) ops w.

(** [bucket_id] is a key of what [storage_strategy.buckets()] returns now. *)
Definition in_listing (s : S) (bucket_id : string) : Prop :=
  exists listing, fst (storage_buckets s) = Ok listing /\ is_Some (listing !! bucket_id).

(** The cache invariant of the data model. *)
Definition cache_inv (w : State S) : Prop :=
  forall b, is_Some (bucket_instances w !! b) -> in_listing (storage_strategy w) b.

End Runs.

(** Modelled from the spec: the storage back ends are not part of this
    module.  What the facade expects of a storage strategy's bucket listing
    when nobody else touches the storage: listing the buckets or creating
    one removes none, deleting one removes no other, and a bucket that was
    created is listed. *)
Class StorageContract (S : Type) `{AbstractStorage S} : Prop := {
  buckets_keeps_listing :
    forall s b, in_listing s b -> in_listing (snd (storage_buckets s)) b;
  create_keeps_listing :
    forall s b b' t c h cr n,
      in_listing s b -> in_listing (snd (storage_create_bucket b' t c h cr n s)) b;
  delete_keeps_others :
    forall s b b',
      b <> b' -> in_listing s b -> in_listing (snd (storage_delete_bucket b' s)) b;
  create_lists :
    forall s b t c h cr n,
      fst (storage_create_bucket b t c h cr n s) = Ok tt ->
      in_listing (snd (storage_create_bucket b t c h cr n s)) b
}.

(** Modelled from the spec: the time-range filter of the storage strategy's
    [get_events] (the storage back ends are not part of this module); both
    ends of the range are inclusive and [None] leaves an end open. *)
Definition in_window (starttime endtime : option datetime) (t : datetime) : bool :=
  match starttime with Some st => dt_le st t | None => true end &&
  match endtime with Some en => dt_le t en | None => true end.

(** Modelled from the spec: how a storage strategy honours [limit]
    (section 6 and [get]'s contract): at most [limit] events when
    [limit >= 0], and for a negative [limit] every event [matching] says the
    bucket holds in the range. *)
Definition honors_limit {S : Type} `{AbstractStorage S}
    (matching : S -> string -> option datetime -> option datetime -> list Event) : Prop :=
  forall s b limit st en l,
    fst (storage_get_events b limit st en s) = Ok l ->
    ((0 <= limit)%Z -> (Z.of_nat (length l) <= limit)%Z) /\
    ((limit < 0)%Z -> l = matching s b st en).

(** ** The oldest inserted event, in the spec's words

    "for a single event, that event; for a sequence, the minimum by
    timestamp, ties broken stable by original order": a left-to-right scan
    that replaces the candidate only by a strictly earlier one. *)
Fixpoint min_by {A} (key : A -> datetime) (candidate : A) (rest : list A) : A :=
  match rest with
  | [] => candidate
  | e :: rest' =>
      min_by key (if dt_lt (key e) (key candidate) then e else candidate) rest'
  end.

Definition min_by_timestamp (candidate : Event) (rest : list Event) : Event :=
  min_by timestamp candidate rest.

(** A list of events, as [insert] receives it. *)
Definition list_of_events (l : list Event) : InsertArg := ArgList (map ItemEvent l).

(** The events of a list all of whose elements are events. *)
Fixpoint events_of (l : list Item) : option (list Event) :=
  match l with
  | [] => Some []
  | ItemEvent e :: l' =>
      match events_of l' with
      | Some es => Some (e :: es)
      | None => None
      end
  | _ :: _ => None
  end.

Definition oldest_inserted (events : InsertArg) : option Event :=
  match events with
  | ArgEvent e => Some e
  | ArgList l =>
      match events_of l with
      | Some (e :: es) => Some (min_by_timestamp e es)
      | _ => None
      end
  | ArgOther _ => None
  end.

(** The warning [insert] logs for an out-of-order insertion, if it is due:
    a prior last event exists and the oldest inserted one is strictly
    earlier. *)
Definition ordering_warning (last_event oldest : option Event) : list LogRecord :=
  match last_event, oldest with
  | Some le, Some oe =>
      if dt_lt (timestamp oe) (timestamp le)
      then [mk_log "Bucket" WARNING (MsgOlderTimestamp le (ItemEvent oe))]
      else []
  | _, _ => []
  end.

(** ** A reference storage strategy: buckets kept in memory

    Modelled from the spec: the storage back ends are not part of this
    module; this one follows the interface of section 6 and keeps each
    bucket's metadata and events in a map.  It is the instance on which the
    concrete runs are made. *)

Module MemoryStorage.

Record MemBucket : Type := mk_mem_bucket {
  mem_meta : Metadata;
  mem_events : list Event
}.

Abbreviation t := (gmap string MemBucket).

Definition create_bucket (b type client hostname created : string) (name : option string)
    (s : t) : result unit * t :=
  (Ok tt, <[b := mk_mem_bucket (mk_metadata b type client hostname created name) []]> s).

Definition delete_bucket (b : string) (s : t) : result unit * t :=
  match s !! b with
  | Some _ => (Ok tt, delete b s)
  | None => (Raise KeyError, s)
  end.

Definition buckets (s : t) : result (gmap string Metadata) * t :=
  (Ok (mem_meta <$> s), s).

Definition get_metadata (b : string) (s : t) : result Metadata * t :=
  match s !! b with
  | Some mb => (Ok (mem_meta mb), s)
  | None => (Raise KeyError, s)
  end.

(** Every event of the bucket in the range, newest first. *)
Definition matching (s : t) (b : string) (st en : option datetime) : list Event :=
  match s !! b with
  | Some mb =>
      rev (sort_by timestamp
             (filter (fun e => in_window st en (timestamp e) = true) (mem_events mb)))
  | None => []
  end.

Definition get_events (b : string) (limit : Z) (st en : option datetime) (s : t)
    : result (list Event) * t :=
  match s !! b with
  | Some _ =>
      let l := matching s b st en in
      (Ok (if (0 <=? limit)%Z then take (Z.to_nat limit) l else l), s)
  | None => (Raise KeyError, s)
  end.

Definition assign_id (n : nat) (e : Event) : Event :=
  mk_event (Some (Z.of_nat n)) (timestamp e) (duration e) (event_data e).

Fixpoint assign_ids (n : nat) (l : list Event) : list Event :=
  match l with
  | [] => []
  | e :: l' => assign_id n e :: assign_ids (Datatypes.S n) l'
  end.

(** The storage reads its input by key only: a plain dict whose
    ['timestamp'] entry is a UTC datetime is stored like an event; any other
    value there is refused. *)
Fixpoint to_events (l : list Item) : result (list Event) :=
  match l with
  | [] => Ok []
  | k :: l' =>
      match getitem_timestamp k, to_events l' with
      | Ok (VDatetime ts), Ok es =>
          Ok (match k with
              | ItemEvent e => e
              | _ => mk_event None ts 0 []
              end :: es)
      | Ok _, Ok _ => Raise TypeError
      | Raise e, _ => Raise e
      | _, Raise e => Raise e
      end
  end.

Definition insert_many (b : string) (l : list Item) (s : t) : result (list Event) * t :=
  match s !! b with
  | Some mb =>
      match to_events l with
      | Ok es =>
          let l' := assign_ids (length (mem_events mb)) es in
          (Ok l', <[b := mk_mem_bucket (mem_meta mb) (mem_events mb ++ l')]> s)
      | Raise e => (Raise e, s)
      end
  | None => (Raise KeyError, s)
  end.

Definition insert_one (b : string) (e : Event) (s : t) : result Event * t :=
  match s !! b with
  | Some mb =>
      let e' := assign_id (length (mem_events mb)) e in
      (Ok e', <[b := mk_mem_bucket (mem_meta mb) (mem_events mb ++ [e'])]> s)
  | None => (Raise KeyError, s)
  end.

Definition replace (b : string) (eid : Z) (e : Event) (s : t) : result unit * t :=
  match s !! b with
  | Some mb =>
      (Ok tt,
       <[b := mk_mem_bucket (mem_meta mb)
                (map (fun e0 => if bool_decide (event_id e0 = Some eid)
                                then mk_event (Some eid) (timestamp e) (duration e) (event_data e)
                                else e0)
                     (mem_events mb))]> s)
  | None => (Raise KeyError, s)
  end.

Definition replace_last (b : string) (e : Event) (s : t) : result unit * t :=
  match s !! b with
  | Some mb =>
      (Ok tt, <[b := mk_mem_bucket (mem_meta mb) (removelast (mem_events mb) ++ [e])]> s)
  | None => (Raise KeyError, s)
  end.

#[global] Instance storage : AbstractStorage t := {
  storage_create_bucket := create_bucket;
  storage_delete_bucket := delete_bucket;
  storage_buckets := buckets;
  storage_get_metadata := get_metadata;
  storage_get_events := get_events;
  storage_insert_one := insert_one;
  storage_insert_many := insert_many;
  storage_replace_last := replace_last;
  storage_replace := replace
}.

End MemoryStorage.

(** ** Vocabulary of the timestamp properties *)

Definition valid_opt (d : option datetime) : Prop :=
  match d with
  | Some d => valid d
  | None => True
  end.

Definition with_microsecond (d : datetime) (us : Z) : datetime :=
  mk_datetime (year d) (month d) (day d) (hour d) (minute d) (second d) us.

(** On a whole millisecond. *)
Definition ms_boundary (d : datetime) : Prop := (microsecond d mod 1000 = 0)%Z.

(** [d'] is the first millisecond boundary strictly after [d]. *)
Definition least_ms_boundary_after (d d' : datetime) : Prop :=
  valid d' /\ ms_boundary d' /\ dt_lt d d' = true /\
  forall b, valid b -> ms_boundary b -> dt_lt d b = true -> dt_le d' b = true.

(** [d'] is the last millisecond boundary at or before [d]. *)
Definition greatest_ms_boundary_upto (d d' : datetime) : Prop :=
  valid d' /\ ms_boundary d' /\ dt_le d' d = true /\
  forall b, valid b -> ms_boundary b -> dt_le b d = true -> dt_le b d' = true.

(** The last millisecond boundary a [datetime] can hold; from here on the
    next boundary would be in year 10000. *)
Definition last_ms_boundary : datetime := mk_datetime 9999 12 31 23 59 59 999000.

(** ** Vocabulary of the insertion properties *)

(** [o] is the first minimum of [l] by [key]: nothing in [l] is strictly
    earlier, and what comes before it in [l] is strictly later (ties go to
    the first). *)
Definition is_first_min {A} (key : A -> datetime) (l : list A) (o : A) : Prop :=
  exists l1 l2,
    l = l1 ++ o :: l2 /\
    Forall (fun e => dt_lt (key o) (key e) = true) l1 /\
    Forall (fun e => dt_lt (key e) (key o) = false) l2.

(** [o] is the oldest event of [l]. *)
Definition is_oldest (l : list Event) (o : Event) : Prop := is_first_min timestamp l o.

(** The call [insert] makes on the storage strategy for its argument. *)
Definition insert_call (b : string) (events : InsertArg) : option StorageCall :=
  match events with
  | ArgEvent e => Some (CallInsertOne b e)
  | ArgList l => Some (CallInsertMany b l)
  | ArgOther _ => None
  end.

(** What that call does on the storage's state. *)
Definition storage_insert {S : Type} `{AbstractStorage S}
    (b : string) (events : InsertArg) (s : S) : option (result Inserted * S) :=
  match events with
  | ArgEvent e =>
      let (r, s') := storage_insert_one b e s in
      Some (match r with Ok i => Ok (InsertedOne i) | Raise x => Raise x end, s')
  | ArgList l =>
      let (r, s') := storage_insert_many b l s in
      Some (match r with Ok i => Ok (InsertedMany i) | Raise x => Raise x end, s')
  | ArgOther _ => None
  end.

(** The state after the storage moved to [s], the calls [cs] were made and
    the records [ls] were logged. *)
Definition after {S : Type} (w : State S) (s : S) (cs : list StorageCall) (ls : list LogRecord)
    : State S :=
  mk_state s (bucket_instances w) (storage_calls w ++ cs) (log_records w ++ ls)
    (next_handle w) (clock w) (create_bucket_default_created w).

(** ** Concrete runs on the memory storage *)

Module Examples.

(** The module is imported on 2017-01-01; the two later instants are when
    calls are made. *)
Definition imported_at : datetime := mk_datetime 2017 1 1 0 0 0 0.
Definition noon_june : datetime := mk_datetime 2017 6 1 12 0 0 0.
Definition new_year_2018 : datetime := mk_datetime 2018 1 1 9 30 0 250000.

Definition w0 : State MemoryStorage.t := Datastore_init ∅ imported_at noon_june.

(** An event at second [s] of 2017-01-01 00:00. *)
Definition ev (s : Z) : Event := mk_event None (mk_datetime 2017 1 1 0 0 s 0) 0 [].

Definition b1 : Bucket := mk_bucket 0 "b1".

(** [ds.create_bucket("b1", ...)] then [ds["b1"].insert(ev 5)]. *)
Definition w1 : State MemoryStorage.t :=
  snd ((let! b := Datastore_create_bucket "b1" "test" "client" "host" None None in
        Bucket_insert b (ArgEvent (ev 5))) w0).

Definition late_events : list Event := [ev 7; ev 3; ev 4].

(** A list holding one plain dict, [{'timestamp': ...}], which is not an
    [Event]. *)
Definition plain_dicts : list Item :=
  [ItemDict (Some (VDatetime (mk_datetime 2017 1 1 0 0 9 0))) []].

(** What the storage gives for [get(1)] and for the bulk insert in [w1]. *)
Definition w1_last : list Event := [MemoryStorage.assign_id 0 (ev 5)].
Definition w1_inserted : list Event := MemoryStorage.assign_ids 1 late_events.
Definition w1_storage_after : MemoryStorage.t :=
  snd (MemoryStorage.insert_many "b1" (map ItemEvent late_events) (storage_strategy w1)).


(** Two buckets created with [created] omitted, the first in June 2017 and
    the second in January 2018. *)
Definition two_creations : M MemoryStorage.t Bucket :=
  let! _ := set_clock noon_june in
  let! _ := Datastore_create_bucket "a" "test" "client" "host" None None in
  let! _ := set_clock new_year_2018 in
  Datastore_create_bucket "b" "test" "client" "host" None None.

(** The [created] argument of every [create_bucket] call in a trace. *)
Definition created_arguments (calls : list StorageCall) : list string :=
  omap (fun c => match c with
                 | CallCreateBucket _ _ _ _ created _ => Some created
                 | _ => None
                 end) calls.


Definition end_of_day : datetime := mk_datetime 2017 3 4 23 59 59 999500.
Definition end_of_time : datetime := mk_datetime 9999 12 31 23 59 59 999500.
Definition mid_morning : datetime := mk_datetime 2017 3 4 10 0 0 123456.

End Examples.

(** ** Vocabulary of the further properties *)

(** [Datastore(storage_strategy, testing)]: the strategy is built by calling
    the factory with the [testing] flag, which defaults to [False]. *)
Definition Datastore_construct {S} (storage_strategy : bool -> S) (testing : option bool)
    (imported_at now : datetime) : State S :=
  Datastore_init (storage_strategy (match testing with Some t => t | None => false end))
    imported_at now.

(** The bucket a storage call is about, when it is about one. *)
Definition call_bucket (c : StorageCall) : option string :=
  match c with
  | CallCreateBucket b _ _ _ _ _ => Some b
  | CallDeleteBucket b => Some b
  | CallBuckets => None
  | CallGetMetadata b => Some b
  | CallGetEvents b _ _ _ => Some b
  | CallInsertOne b _ => Some b
  | CallInsertMany b _ => Some b
  | CallReplaceLast b _ => Some b
  | CallReplace b _ _ => Some b
  end.

(** Calls on whole buckets, as opposed to calls on a bucket's events or
    metadata. *)
Definition is_bucket_level_call (c : StorageCall) : bool :=
  match c with
  | CallCreateBucket _ _ _ _ _ _ | CallDeleteBucket _ | CallBuckets => true
  | _ => false
  end.

(** The method calls on a [Bucket] handle. *)
Inductive BucketOp : Type :=
  | OpMetadata
  | OpGet (limit : Z) (starttime endtime : option datetime)
  | OpInsert (events : InsertArg)
  | OpReplaceLast (event : Event)
  | OpReplace (event_id : Z) (event : Event).

Section BucketRuns.
Context {S : Type} `{AbstractStorage S}.

(** One method call on [self]; the caller catches whatever it raises. *)
Definition run_bucket_op (self : Bucket) (o : BucketOp) (w : State S) : State S :=
  match o with
  | OpMetadata => snd (Bucket_metadata self w)
  | OpGet limit st en => snd (Bucket_get self limit st en w)
  | OpInsert events => snd (Bucket_insert self events w)
  | OpReplaceLast e => snd (Bucket_replace_last self e w)
  | OpReplace eid e => snd (Bucket_replace self eid e w)
  end.

(** A computation that leaves the Datastore object and its surroundings
    alone: the cache, the allocator of handles, the clock and the default of
    [created]. *)
Definition keeps_datastore {A} (m : M S A) : Prop :=
  forall w,
    bucket_instances (snd (m w)) = bucket_instances w /\
    next_handle (snd (m w)) = next_handle w /\
    clock (snd (m w)) = clock w /\
    create_bucket_default_created (snd (m w)) = create_bucket_default_created w.

(** A computation that only appends to the log and to the trace of storage
    calls, with records satisfying [P] and calls satisfying [Q]. *)
Definition appends_only {A} (P : LogRecord -> Prop) (Q : StorageCall -> Prop) (m : M S A)
    : Prop :=
  forall w,
    (exists ls, log_records (snd (m w)) = log_records w ++ ls /\ Forall P ls) /\
    (exists cs, storage_calls (snd (m w)) = storage_calls w ++ cs /\ Forall Q cs).

End BucketRuns.

(** A call on the events or the metadata of [self]'s own bucket. *)
Definition own_event_call (self : Bucket) (c : StorageCall) : Prop :=
  call_bucket c = Some (bucket_id self) /\ is_bucket_level_call c = false.

(** A warning of the [Bucket] logger. *)
Definition bucket_warning (r : LogRecord) : Prop :=
  logger_name r = "Bucket"%string /\ level r = WARNING.

(** A record of the [Datastore] logger, which never warns. *)
Definition datastore_record (r : LogRecord) : Prop :=
  logger_name r = "Datastore"%string /\ level r <> WARNING.

(** A call on whole buckets. *)
Definition bucket_level (c : StorageCall) : Prop := is_bucket_level_call c = true.

(** The bucket id a Datastore operation names, if any. *)
Definition op_target (o : Op) : option string :=
  match o with
  | OpLookup b => Some b
  | OpCreateBucket b _ _ _ _ _ => Some b
  | OpDeleteBucket b => Some b
  | OpBuckets => None
  end.

(** Every cached handle is bound to the id it is cached under, was handed
    out by the allocator, and shares its identity with no handle cached under
    another id. *)
Definition handles_inv {S} (w : State S) : Prop :=
  (forall b h, bucket_instances w !! b = Some h ->
               bucket_id h = b /\ (handle h < next_handle w)%nat) /\
  (forall b1 b2 h1 h2,
     bucket_instances w !! b1 = Some h1 -> bucket_instances w !! b2 = Some h2 ->
     handle h1 = handle h2 -> b1 = b2).

(** An element whose ['timestamp'] can be read. *)
Definition readable (k : Item) : Prop := is_ok (getitem_timestamp k) = true.

(** The kind of a value: values compare with [<] exactly within a kind. *)
Definition kind (v : PyValue) : nat :=
  match v with
  | VDatetime _ => 0
  | VNaive _ => 1
  | VInt _ => 2
  | VStr _ => 3
  end.

(** The ['timestamp'] entries of the elements of [l] all compare with each
    other. *)
Definition timestamps_compare (l : list Item) : Prop :=
  forall a b ta tb,
    In a l -> In b l ->
    getitem_timestamp a = Ok ta -> getitem_timestamp b = Ok tb ->
    is_ok (value_lt ta tb) = true.

(** A plain dict whose ['timestamp'] entry is a UTC datetime. *)
Definition is_timestamped_dict (k : Item) : Prop :=
  match k with
  | ItemDict (Some (VDatetime _)) _ => True
  | _ => False
  end.

Definition opt_ms_boundary (d : option datetime) : Prop :=
  match d with
  | Some d => valid d /\ ms_boundary d
  | None => True
  end.

(** ** A storage strategy that cannot be written to

    Modelled from the spec: a stand-in for a storage back end whose writes
    fail (the back ends are not part of this module).  Its state is the
    events it returns for any bucket; both insert operations raise. *)

Module FailingStorage.

Record t : Type := mk { events : list Event }.

Definition disk_full : exn := StorageError "disk full".

#[global] Instance storage : AbstractStorage t := {
  storage_create_bucket := fun _ _ _ _ _ _ s => (Ok tt, s);
  storage_delete_bucket := fun _ s => (Ok tt, s);
  storage_buckets := fun s => (Ok ∅, s);
  storage_get_metadata := fun _ s => (Raise KeyError, s);
  storage_get_events := fun _ _ _ _ s => (Ok (events s), s);
  storage_insert_one := fun _ _ s => (Raise disk_full, s);
  storage_insert_many := fun _ _ s => (Raise disk_full, s);
  storage_replace_last := fun _ _ s => (Raise disk_full, s);
  storage_replace := fun _ _ _ s => (Raise disk_full, s)
}.

End FailingStorage.

(** The value a storage call returned, [[]] when it raised. *)
Definition fst_ok {A B} (p : result (list A) * B) : list A :=
  match fst p with
  | Ok l => l
  | Raise _ => []
  end.

(** ** More concrete runs *)

Module MoreExamples.
Import Examples.

(** A new Datastore in which bucket ["b1"] has been created. *)
Definition w_created : State MemoryStorage.t :=
  run_ops [OpCreateBucket "b1" "test" "client" "host" None None] w0.

(** Operations that never delete ["b1"]. *)
Definition busy_ops : list Op :=
  [OpLookup "b1"; OpCreateBucket "b1" "test" "client" "host" None None;
   OpCreateBucket "other" "test" "client" "host" None None;
   OpDeleteBucket "other"; OpLookup "missing"; OpBuckets].

(** Operations that never name ["b1"]. *)
Definition other_ops : list Op :=
  [OpCreateBucket "other" "test" "client" "host" None None;
   OpDeleteBucket "other"; OpLookup "missing"; OpBuckets].

(** ["b1"] is created again and looked up after its deletion. *)
Definition recreate_ops : list Op :=
  [OpCreateBucket "b1" "test" "client" "host" None None; OpLookup "b1"].

Definition noon : datetime := mk_datetime 2017 3 4 12 0 0 0.

(** A Datastore on the storage that cannot be written to, which already
    returns one event. *)
Definition w_failing : State FailingStorage.t :=
  Datastore_init (FailingStorage.mk [ev 5]) imported_at noon_june.



End MoreExamples.

(** * Properties *)

(** ** The order on datetimes *)

Section DatetimeOrder.
Local Open Scope Z_scope.

Lemma tuple_cmp_refl (a : list Z) : tuple_cmp a a = Eq.
Proof. induction a as [|x a IH]; simpl; [reflexivity|]. now rewrite Z.compare_refl. Qed.

Lemma tuple_cmp_eq (a b : list Z) : tuple_cmp a b = Eq -> a = b.
Proof.
  revert b; induction a as [|x a IH]; intros [|y b]; simpl; try discriminate; auto.
  destruct (Z.compare_spec x y); try discriminate.
  intros Hab. subst. f_equal. auto.
Qed.

Lemma tuple_cmp_antisym (a b : list Z) : tuple_cmp b a = CompOpp (tuple_cmp a b).
Proof.
  revert b; induction a as [|x a IH]; intros [|y b]; simpl; auto.
  rewrite (Z.compare_antisym x y).
  destruct (Z.compare_spec x y); simpl; auto.
Qed.

Lemma tuple_cmp_lt_trans (a b c : list Z) :
  tuple_cmp a b = Lt -> tuple_cmp b c = Lt -> tuple_cmp a c = Lt.
Proof.
  revert b c; induction a as [|x a IH]; intros [|y b] [|z c]; simpl; try discriminate; auto.
  destruct (Z.compare_spec x y), (Z.compare_spec y z); try discriminate; intros Hab Hbc.
  - subst. rewrite Z.compare_refl. eauto.
  - subst. now apply Z.compare_lt_iff in H0 as ->.
  - subst. now apply Z.compare_lt_iff in H as ->.
  - assert (Hxz : x < z) by lia. now apply Z.compare_lt_iff in Hxz as ->.
Qed.

Lemma fields_inj (a b : datetime) : fields a = fields b -> a = b.
Proof. destruct a, b; unfold fields; simpl; intros Heq; injection Heq; intros; subst; reflexivity. Qed.

Lemma dt_cmp_refl a : dt_cmp a a = Eq.
Proof. apply tuple_cmp_refl. Qed.

Lemma dt_cmp_eq a b : dt_cmp a b = Eq -> a = b.
Proof. intros Hc. apply fields_inj, tuple_cmp_eq, Hc. Qed.

Lemma dt_cmp_antisym a b : dt_cmp b a = CompOpp (dt_cmp a b).
Proof. apply tuple_cmp_antisym. Qed.

Lemma dt_lt_irrefl a : dt_lt a a = false.
Proof. unfold dt_lt. now rewrite dt_cmp_refl. Qed.

Lemma dt_le_refl a : dt_le a a = true.
Proof. unfold dt_le. now rewrite dt_cmp_refl. Qed.

Lemma dt_lt_trans a b c : dt_lt a b = true -> dt_lt b c = true -> dt_lt a c = true.
Proof.
  unfold dt_lt. intros Hab Hbc.
  destruct (dt_cmp a b) eqn:Eab; try discriminate.
  destruct (dt_cmp b c) eqn:Ebc; try discriminate.
  unfold dt_cmp in *. now rewrite (tuple_cmp_lt_trans _ _ _ Eab Ebc).
Qed.

(** [not (a < b)] is [b <= a]. *)
Lemma dt_lt_false_le a b : dt_lt a b = false <-> dt_le b a = true.
Proof.
  unfold dt_lt, dt_le. rewrite (dt_cmp_antisym a b).
  destruct (dt_cmp a b); simpl; intuition congruence.
Qed.

Lemma dt_lt_le a b : dt_lt a b = true -> dt_le a b = true.
Proof. unfold dt_lt, dt_le. destruct (dt_cmp a b); congruence. Qed.

Lemma dt_lt_le_trans a b c : dt_lt a b = true -> dt_le b c = true -> dt_lt a c = true.
Proof.
  intros Hab Hbc. unfold dt_le in Hbc.
  destruct (dt_cmp b c) eqn:Ebc; try discriminate.
  - apply dt_cmp_eq in Ebc. now subst.
  - apply (dt_lt_trans a b c Hab). unfold dt_lt. now rewrite Ebc.
Qed.

Lemma dt_le_lt_trans a b c : dt_le a b = true -> dt_lt b c = true -> dt_lt a c = true.
Proof.
  intros Hab Hbc. unfold dt_le in Hab.
  destruct (dt_cmp a b) eqn:Eab; try discriminate.
  - apply dt_cmp_eq in Eab. now subst.
  - refine (dt_lt_trans a b c _ Hbc). unfold dt_lt. now rewrite Eab.
Qed.

Lemma dt_le_trans a b c : dt_le a b = true -> dt_le b c = true -> dt_le a c = true.
Proof.
  intros Hab Hbc. destruct (dt_lt a b) eqn:Elt.
  - apply dt_lt_le. eapply dt_lt_le_trans; eauto.
  - apply dt_lt_false_le in Elt.
    unfold dt_le in Hab, Elt. rewrite (dt_cmp_antisym a b) in Elt.
    destruct (dt_cmp a b) eqn:Eab; try discriminate.
    apply dt_cmp_eq in Eab. now subst.
Qed.

End DatetimeOrder.

(** ** Calendar arithmetic *)

(** [lia] with the divisions and remainders by constants spelled out. *)
Ltac dlia := Z.div_mod_to_equations; lia.

(** Case analysis on every field comparison in sight, outermost first. *)
Ltac cmp_cases :=
  repeat match goal with
    | H : context [Z.compare ?x ?y] |- _ =>
        destruct (Z.compare_spec x y); try discriminate H; try dlia; subst
    | |- context [Z.compare ?x ?y] =>
        destruct (Z.compare_spec x y); try reflexivity; try dlia; subst
    end.

Ltac dt_unfold :=
  unfold dt_lt, dt_le, dt_cmp, fields, with_microsecond in *;
  cbn [tuple_cmp year month day hour minute second microsecond] in *.

Section Calendar.
Local Open Scope Z_scope.

Lemma days_in_month_bounds y m : 28 <= days_in_month y m <= 31.
Proof.
  unfold days_in_month.
  destruct (m =? 2); [destruct (is_leap y); lia|].
  destruct ((m =? 4) || (m =? 6) || (m =? 9) || (m =? 11))%bool; lia.
Qed.

Lemma validb_valid d : validb d = true <-> valid d.
Proof.
  unfold validb, valid, MINYEAR, MAXYEAR.
  rewrite !andb_true_iff, !Z.leb_le. tauto.
Qed.

Lemma replace_microsecond_ok d us :
  0 <= us <= 999999 -> replace_microsecond d us = Ok (with_microsecond d us).
Proof.
  intros Hus. unfold replace_microsecond.
  destruct (Z.leb_spec 0 us), (Z.leb_spec us 999999); simpl; try lia. reflexivity.
Qed.

Lemma with_microsecond_valid d us : valid d -> 0 <= us <= 999999 -> valid (with_microsecond d us).
Proof. unfold valid, with_microsecond; simpl. tauto. Qed.

(** [+ timedelta(seconds=1)] lands in the next second, and no valid
    datetime lies between the end of this second and the start of the
    next. *)
Lemma add_one_second_next d d' :
  valid d -> add_one_second d = Ok d' ->
  valid d' /\ microsecond d' = microsecond d /\
  dt_lt (with_microsecond d 999999) (with_microsecond d' 0) = true /\
  forall b, valid b -> dt_lt (with_microsecond d 999999) b = true ->
            dt_le (with_microsecond d' 0) b = true.
Proof.
  intros Hd Hadd. unfold add_one_second in Hadd.
  destruct d as [y m dd h mi s us]. unfold valid, MINYEAR, MAXYEAR in *. simpl in *.
  pose proof (days_in_month_bounds y (m + 1)) as Hdim1.
  pose proof (days_in_month_bounds (y + 1) 1) as Hdim2.
  repeat match type of Hadd with
    | context [Z.ltb ?x ?y] => destruct (Z.ltb_spec x y)
    end;
    try discriminate Hadd; injection Hadd as <-; simpl;
    (split; [lia|]); (split; [reflexivity|]);
    (split; [dt_unfold; rewrite ?Z.compare_refl; cmp_cases|]);
    intros [y' m' dd' h' mi' s' us'] Hb Hlt; simpl in Hb; dt_unfold; cmp_cases.
Qed.

Lemma int_div_1000_floor us : 0 <= us -> int_div_1000 us = us / 1000.
Proof. intros Hus. unfold int_div_1000. apply Z.quot_div_nonneg; lia. Qed.

Lemma int_div_1000_plus_1_floor us : 0 <= us -> int_div_1000_plus_1 us = us / 1000 + 1.
Proof.
  intros Hus. unfold int_div_1000_plus_1.
  rewrite Z.quot_div_nonneg by lia.
  replace (us + 1000) with (us + 1 * 1000) by lia.
  now rewrite Z.div_add by lia.
Qed.

(** Lines 64-65: truncation to the millisecond. *)
Lemma normalize_starttime_truncates st :
  valid st ->
  normalize_starttime (Some st)
  = Ok (Some (with_microsecond st (1000 * (microsecond st / 1000)))) /\
  greatest_ms_boundary_upto st (with_microsecond st (1000 * (microsecond st / 1000))).
Proof.
  intros Hst.
  assert (Hus : 0 <= microsecond st <= 999999) by (unfold valid in Hst; tauto).
  assert (Hus' : 0 <= 1000 * (microsecond st / 1000) <= 999999) by dlia.
  split.
  - unfold normalize_starttime. rewrite int_div_1000_floor by lia.
    now rewrite replace_microsecond_ok.
  - split; [now apply with_microsecond_valid|].
    destruct st as [y m d h mi s us]. simpl in *.
    split; [unfold ms_boundary; simpl; dlia|].
    split; [dt_unfold; rewrite ?Z.compare_refl; cmp_cases|].
    intros [y' m' d' h' mi' s' us'] Hb Hms Hle. unfold ms_boundary in Hms. simpl in Hms.
    dt_unfold. cmp_cases.
Qed.

(** Lines 66-71, when the next boundary exists. *)
Lemma normalize_endtime_rounds_up en :
  valid en -> dt_lt en last_ms_boundary = true ->
  exists en',
    normalize_endtime (Some en) = Ok (Some en') /\
    (1000 * (microsecond en / 1000 + 1) <= 999999 ->
       en' = with_microsecond en (1000 * (microsecond en / 1000 + 1))) /\
    (1000 * (microsecond en / 1000 + 1) > 999999 ->
       microsecond en' = 0 /\ add_one_second (with_microsecond en 0) = Ok en') /\
    least_ms_boundary_after en en'.
Proof.
  intros Hen Hlast.
  assert (Hus : 0 <= microsecond en <= 999999) by (unfold valid in Hen; tauto).
  unfold normalize_endtime. rewrite int_div_1000_plus_1_floor by lia.
  set (us' := 1000 * (microsecond en / 1000 + 1)).
  destruct (Z.gtb_spec us' 999999) as [Hcarry|Hfit].
  - rewrite replace_microsecond_ok by lia.
    assert (Hen0 : valid (with_microsecond en 0)) by (apply with_microsecond_valid; [assumption|lia]).
    destruct (add_one_second (with_microsecond en 0)) as [en'|e] eqn:Hadd.
    + destruct (add_one_second_next _ _ Hen0 Hadd) as (Hv & Hmu & Hlt & Hleast).
      simpl in Hmu. exists en'. split; [reflexivity|]. split; [lia|]. split; [auto|].
      assert (Hen' : with_microsecond en' 0 = en') by (destruct en'; simpl in Hmu; now subst).
      split; [assumption|]. split; [unfold ms_boundary; now rewrite Hmu|].
      split.
      * apply dt_le_lt_trans with (with_microsecond en 999999); [|now rewrite <- Hen'].
        destruct en as [y m d h mi s us]. simpl in *. dt_unfold. rewrite ?Z.compare_refl. cmp_cases.
      * intros b Hb Hms Hltb. rewrite <- Hen'. apply Hleast; [assumption|].
        destruct en as [y m d h mi s us], b as [y' m' d' h' mi' s' usb].
        unfold ms_boundary, valid in *. subst us'. simpl in *. clear Hadd Hleast Hlt Hen'.
        dt_unfold. cmp_cases.
    + exfalso. clear Hen0. unfold add_one_second in Hadd.
      destruct en as [y m d h mi s us]. unfold valid, last_ms_boundary, MAXYEAR, MINYEAR in *.
      simpl in *.
      assert (Hdim : days_in_month 9999 12 = 31) by reflexivity.
      repeat match type of Hadd with
        | context [Z.ltb ?x ?y] => destruct (Z.ltb_spec x y)
        end; try discriminate Hadd.
      assert (y = 9999) by lia. assert (m = 12) by lia. subst y m.
      rewrite Hdim in *. subst us'.
      dt_unfold. cmp_cases.
  - assert (Hus' : 0 <= us' <= 999999) by (subst us'; dlia).
    rewrite replace_microsecond_ok by lia.
    exists (with_microsecond en us'). split; [reflexivity|]. split; [reflexivity|].
    split; [lia|].
    split; [apply with_microsecond_valid; [assumption|lia]|].
    destruct en as [y m d h mi s us]. subst us'. simpl in *.
    split; [unfold ms_boundary; simpl; dlia|].
    split; [dt_unfold; rewrite ?Z.compare_refl; cmp_cases|].
    intros [y' m' d' h' mi' s' usb] Hb Hms Hltb. unfold ms_boundary in Hms. simpl in Hms.
    dt_unfold. cmp_cases.
Qed.

(** Lines 66-71, in the last millisecond of year 9999. *)
Lemma normalize_endtime_overflow en :
  valid en -> dt_lt en last_ms_boundary = false ->
  normalize_endtime (Some en) = Raise OverflowError.
Proof.
  intros Hen Hlast.
  assert (Hus : 0 <= microsecond en <= 999999) by (unfold valid in Hen; tauto).
  unfold normalize_endtime. rewrite int_div_1000_plus_1_floor by lia.
  destruct en as [y m d h mi s us]. unfold valid, last_ms_boundary, MAXYEAR, MINYEAR in *.
  simpl in *.
  assert (Hfields : y = 9999 /\ m = 12 /\ d = 31 /\ h = 23 /\ mi = 59 /\ s = 59 /\ 999000 <= us).
  { destruct Hen as (Hy & Hm & Hd & Hh & Hmi & Hs & _).
    assert (Hdim : forall m', m' = 12 -> days_in_month y m' = 31) by (intros m' ->; reflexivity).
    dt_unfold. cmp_cases; try (rewrite Hdim in Hd by reflexivity; lia).
    all: repeat split; try reflexivity; try lia. }
  destruct Hfields as (-> & -> & -> & -> & -> & -> & Hge).
  destruct (Z.gtb_spec (1000 * (us / 1000 + 1)) 999999); [|dlia].
  reflexivity.
Qed.

End Calendar.

(** ** [Bucket.get] *)

Section BucketGet.
Context {S : Type} `{AbstractStorage S}.
Local Open Scope Z_scope.

Lemma Bucket_get_normalized (self : Bucket) limit st en st' en' (w : State S) :
  normalize_starttime st = Ok st' ->
  normalize_endtime en = Ok en' ->
  Bucket_get self limit st en w
  = call_storage (CallGetEvents (bucket_id self) limit st' en')
      (storage_get_events (bucket_id self) limit st' en') w.
Proof. intros Hst Hen. unfold Bucket_get, bind, lift. now rewrite Hst, Hen. Qed.

Lemma normalize_starttime_ok st :
  valid_opt st -> exists st', normalize_starttime st = Ok st'.
Proof.
  destruct st as [st|]; simpl; intros Hst; [|now exists None].
  destruct (normalize_starttime_truncates st Hst) as [Heq _]. eauto.
Qed.

Lemma normalize_endtime_later en en' :
  valid en -> normalize_endtime (Some en) = Ok (Some en') -> dt_lt en en' = true.
Proof.
  intros Hen Hnorm. destruct (dt_lt en last_ms_boundary) eqn:Hlast.
  - destruct (normalize_endtime_rounds_up en Hen Hlast) as (en'' & Heq & _ & _ & Hleast).
    rewrite Heq in Hnorm. injection Hnorm as <-. apply Hleast.
  - rewrite (normalize_endtime_overflow en Hen Hlast) in Hnorm. discriminate.
Qed.

(** The effective window contains the given one. *)
Lemma window_widens st en st' en' t :
  valid_opt st -> valid_opt en ->
  normalize_starttime st = Ok st' -> normalize_endtime en = Ok en' ->
  in_window st en t = true -> in_window st' en' t = true.
Proof.
  intros Hst Hen Hnst Hnen. unfold in_window. rewrite !andb_true_iff. intros [Hlo Hhi]. split.
  - destruct st as [st|].
    + simpl in Hst. destruct (normalize_starttime_truncates st Hst) as [Heq (_ & _ & Hle & _)].
      rewrite Heq in Hnst. injection Hnst as <-. eapply dt_le_trans; eauto.
    + simpl in Hnst. injection Hnst as <-. reflexivity.
  - destruct en as [en|].
    + destruct en' as [en'|].
      * apply dt_lt_le. eapply dt_le_lt_trans; [exact Hhi|].
        now apply normalize_endtime_later.
      * reflexivity.
    + simpl in Hnen. injection Hnen as <-. reflexivity.
Qed.

(** C1 (as amended). [get] with an [endtime] before the last millisecond
    boundary of year 9999 hands the storage strategy the first millisecond
    boundary strictly after it: microsecond [1000 * (floor(us / 1000) + 1)]
    when that is at most 999999, and otherwise microsecond 0 of the next
    whole second.  From the last boundary on, [get] raises [OverflowError]
    and the storage strategy is not called. *)
Theorem get_endtime_rounds_up_to_next_millisecond
    (self : Bucket) limit st en (w : State S) :
  valid_opt st -> valid en ->
  (dt_lt en last_ms_boundary = true ->
   exists st' en',
     normalize_starttime st = Ok st' /\
     Bucket_get self limit st (Some en) w
     = call_storage (CallGetEvents (bucket_id self) limit st' (Some en'))
         (storage_get_events (bucket_id self) limit st' (Some en')) w /\
     (1000 * (microsecond en / 1000 + 1) <= 999999 ->
        en' = with_microsecond en (1000 * (microsecond en / 1000 + 1))) /\
     (1000 * (microsecond en / 1000 + 1) > 999999 ->
        microsecond en' = 0 /\ add_one_second (with_microsecond en 0) = Ok en') /\
     least_ms_boundary_after en en') /\
  (dt_lt en last_ms_boundary = false ->
   Bucket_get self limit st (Some en) w = (Raise OverflowError, w)).
Proof.
  intros Hst Hen. destruct (normalize_starttime_ok st Hst) as [st' Hnst]. split; intros Hlast.
  - destruct (normalize_endtime_rounds_up en Hen Hlast) as (en' & Heq & Hfit & Hcarry & Hleast).
    exists st', en'. split; [assumption|]. split; [|auto].
    now apply Bucket_get_normalized.
  - unfold Bucket_get, bind, lift. rewrite Hnst.
    now rewrite (normalize_endtime_overflow en Hen Hlast).
Qed.

(** C2. [get] with a [starttime] hands the storage strategy that time
    truncated to the millisecond: the last millisecond boundary at or
    before it, so not later than the given one.  The effective window
    contains the given window, and an event exactly on the truncated
    boundary is inside the effective window. *)
Theorem get_starttime_truncates_to_millisecond
    (self : Bucket) limit st en en' (w : State S) :
  valid st -> valid_opt en -> normalize_endtime en = Ok en' ->
  let st' := with_microsecond st (1000 * (microsecond st / 1000)) in
  normalize_starttime (Some st) = Ok (Some st') /\
  Bucket_get self limit (Some st) en w
  = call_storage (CallGetEvents (bucket_id self) limit (Some st') en')
      (storage_get_events (bucket_id self) limit (Some st') en') w /\
  greatest_ms_boundary_upto st st' /\
  dt_le st' st = true /\
  (forall t, in_window (Some st) en t = true -> in_window (Some st') en' t = true) /\
  (forall e : Event,
     timestamp e = st' ->
     in_window (Some st') None (timestamp e) = true /\
     (in_window (Some st) en st = true -> in_window (Some st') en' (timestamp e) = true)).
Proof.
  intros Hst Hen Hnen st'.
  destruct (normalize_starttime_truncates st Hst) as [Hnst Hgreatest].
  fold st' in Hnst, Hgreatest.
  assert (Hle : dt_le st' st = true) by apply Hgreatest.
  split; [assumption|].
  split; [now apply Bucket_get_normalized|].
  split; [assumption|]. split; [assumption|].
  split.
  - intros t. now apply window_widens.
  - intros e ->. split.
    + unfold in_window. now rewrite dt_le_refl.
    + intros Hin.
      pose proof (window_widens (Some st) en (Some st') en' st Hst Hen Hnst Hnen Hin) as Hwide.
      unfold in_window in *. rewrite andb_true_iff in *.
      split; [apply dt_le_refl|].
      destruct en' as [e1|]; [|reflexivity].
      eapply dt_le_trans; [exact Hle|]. apply Hwide.
Qed.

End BucketGet.

(** ** The oldest inserted event *)

Section FirstMinimum.
Context {A : Type} (key : A -> datetime).

Lemma is_first_min_unique l o o' :
  is_first_min key l o -> is_first_min key l o' -> o = o'.
Proof.
  intros (l1 & l2 & -> & Hbefore & Hafter) (l1' & l2' & Heq & Hbefore' & Hafter').
  revert l1' Heq Hbefore'.
  induction l1 as [|x l1 IH]; intros [|x' l1'] Heq Hbefore'; simpl in Heq.
  - now injection Heq.
  - injection Heq as -> ->. exfalso.
    apply Forall_cons in Hbefore' as [Hlt _].
    apply Forall_app in Hafter as [_ Hafter].
    apply Forall_cons in Hafter as [Hnlt _]. congruence.
  - injection Heq as -> <-. exfalso.
    apply Forall_cons in Hbefore as [Hlt _].
    apply Forall_app in Hafter' as [_ Hafter'].
    apply Forall_cons in Hafter' as [Hnlt _]. congruence.
  - injection Heq as <- Heq.
    apply Forall_cons in Hbefore as [_ Hbefore].
    apply Forall_cons in Hbefore' as [_ Hbefore'].
    now apply (IH Hbefore l1').
Qed.

(** The head of an insertion into [l] is the new element unless the head of
    [l] is strictly earlier. *)
Lemma insert_sorted_head x l :
  index0 (insert_sorted key x l)
  = Ok (match l with
        | y :: _ => if dt_lt (key y) (key x) then y else x
        | [] => x
        end).
Proof. destruct l as [|y l]; simpl; [reflexivity|]. now destruct (dt_lt _ _). Qed.

Lemma sort_by_head_is_first_min x l :
  exists o, index0 (sort_by key (x :: l)) = Ok o /\ is_first_min key (x :: l) o.
Proof.
  revert x; induction l as [|y l IH]; intros x.
  - exists x. split; [reflexivity|]. exists [], []. repeat split; constructor.
  - destruct (IH y) as (m & Hhead & l1 & l2 & Hsplit & Hbefore & Hafter).
    change (sort_by key (x :: y :: l)) with (insert_sorted key x (sort_by key (y :: l))).
    rewrite insert_sorted_head.
    destruct (sort_by key (y :: l)) as [|m' rest]; [discriminate|].
    injection Hhead as ->.
    destruct (dt_lt (key m) (key x)) eqn:Hlt.
    + exists m. split; [reflexivity|].
      exists (x :: l1), l2. rewrite Hsplit. split; [reflexivity|]. split; [|assumption].
      now constructor.
    + exists x. split; [reflexivity|].
      exists [], (y :: l). split; [reflexivity|]. split; [constructor|].
      rewrite Hsplit. apply dt_lt_false_le in Hlt.
      apply Forall_app. split; [|constructor].
      * eapply Forall_impl; [exact Hbefore|]. intros e He. simpl in He.
        apply dt_lt_false_le. apply dt_lt_le. eapply dt_le_lt_trans; eauto.
      * now apply dt_lt_false_le.
      * eapply Forall_impl; [exact Hafter|]. intros e He. simpl in He.
        apply dt_lt_false_le. apply dt_lt_false_le in He. eapply dt_le_trans; eauto.
Qed.

Lemma min_by_extends prefix candidate rest :
  is_first_min key prefix candidate ->
  is_first_min key (prefix ++ rest) (min_by key candidate rest).
Proof.
  revert prefix candidate; induction rest as [|e rest IH]; intros prefix c Hc; simpl.
  - now rewrite app_nil_r.
  - replace (prefix ++ e :: rest) with ((prefix ++ [e]) ++ rest) by now rewrite <- app_assoc.
    apply IH. destruct Hc as (l1 & l2 & -> & Hbefore & Hafter).
    destruct (dt_lt (key e) (key c)) eqn:Hlt.
    + exists (l1 ++ c :: l2), []. split; [reflexivity|]. split; [|constructor].
      apply Forall_app. split; [|constructor].
      * eapply Forall_impl; [exact Hbefore|]. intros e' He'. simpl in He'.
        eapply dt_lt_trans; eauto.
      * assumption.
      * eapply Forall_impl; [exact Hafter|]. intros e' He'. simpl in He'.
        apply dt_lt_false_le in He'. eapply dt_lt_le_trans; eauto.
    + exists l1, (l2 ++ [e]). split; [now rewrite <- app_assoc|]. split; [assumption|].
      apply Forall_app. split; [assumption|]. now constructor.
Qed.

Lemma min_by_is_first_min x l : is_first_min key (x :: l) (min_by key x l).
Proof.
  apply (min_by_extends [x] x l).
  exists [], []. repeat split; constructor.
Qed.

(** The head of the stable sort is the left-to-right minimum. *)
Lemma sort_by_head_min x l : index0 (sort_by key (x :: l)) = Ok (min_by key x l).
Proof.
  destruct (sort_by_head_is_first_min x l) as (o & Hhead & Ho).
  rewrite Hhead. f_equal. eapply is_first_min_unique; eauto using min_by_is_first_min.
Qed.

End FirstMinimum.

Section Oldest.

Lemma min_by_map {A B} (key : A -> datetime) (key' : B -> datetime) (f : A -> B) c rest :
  (forall e, key' (f e) = key e) ->
  min_by key' (f c) (map f rest) = f (min_by key c rest).
Proof.
  intros Hkey. revert c; induction rest as [|e rest IH]; intros c; simpl; [reflexivity|].
  rewrite !Hkey. destruct (dt_lt (key e) (key c)); apply IH.
Qed.

Lemma events_of_Some l es : events_of l = Some es -> l = map ItemEvent es.
Proof.
  revert es; induction l as [|k l IH]; intros es; simpl.
  - now intros [= <-].
  - destruct k as [e| |]; try discriminate.
    destruct (events_of l) as [es'|]; [|discriminate].
    intros [= <-]. simpl. f_equal. now apply IH.
Qed.

Lemma events_of_map es : events_of (map ItemEvent es) = Some es.
Proof. induction es as [|e es IH]; simpl; [reflexivity|]. now rewrite IH. Qed.

Lemma list_of_events_inv l es : ArgList l = list_of_events es -> events_of l = Some es.
Proof. unfold list_of_events. intros [= ->]. apply events_of_map. Qed.

(** A key that is a UTC datetime, as [sorted] sees it. *)
Lemma insert_by_key_datetimes (x : datetime * Item) (l : list (datetime * Item)) :
  insert_by_key (VDatetime (fst x), snd x) (map (fun p => (VDatetime (fst p), snd p)) l)
  = Ok (map (fun p => (VDatetime (fst p), snd p)) (insert_sorted fst x l)).
Proof.
  induction l as [|y l IH]; simpl; [reflexivity|].
  destruct (dt_lt (fst y) (fst x)); [|reflexivity].
  simpl in IH. now rewrite IH.
Qed.

(** On keys that are all UTC datetimes no comparison raises, and the sort
    is the insertion sort on the datetimes. *)
Lemma sort_by_key_datetimes (l : list (datetime * Item)) :
  sort_by_key (map (fun p => (VDatetime (fst p), snd p)) l)
  = Ok (map (fun p => (VDatetime (fst p), snd p)) (sort_by fst l)).
Proof.
  induction l as [|x l IH]; simpl; [reflexivity|].
  rewrite IH. apply insert_by_key_datetimes.
Qed.

Lemma decorate_events es :
  decorate (map ItemEvent es)
  = Ok (map (fun p => (VDatetime (fst p), snd p))
          (map (fun e => (timestamp e, ItemEvent e)) es)).
Proof. induction es as [|e es IH]; simpl; [reflexivity|]. now rewrite IH. Qed.

(** [sorted(events, key=...)[0]] on a list of events is the minimum by
    timestamp, ties to the first in the original order. *)
Lemma sorted_head_min x es :
  exists s, sorted (map ItemEvent (x :: es)) = Ok s /\
            index0 s = Ok (ItemEvent (min_by_timestamp x es)).
Proof.
  unfold sorted. rewrite decorate_events, sort_by_key_datetimes.
  eexists. split; [reflexivity|].
  rewrite map_map. simpl snd.
  set (dec := fun e : Event => (timestamp e, ItemEvent e)).
  change (map dec (x :: es)) with (dec x :: map dec es).
  pose proof (sort_by_head_min fst (dec x) (map dec es)) as Hhead.
  destruct (sort_by fst (dec x :: map dec es)) as [|p rest]; [discriminate|].
  simpl in *. injection Hhead as ->.
  unfold min_by_timestamp.
  now rewrite (min_by_map timestamp fst dec x es) by reflexivity.
Qed.

End Oldest.

(** ** Sorting a list of anything *)

Section SortingItems.

Lemma decorate_snd l dl : decorate l = Ok dl -> map snd dl = l.
Proof.
  revert dl; induction l as [|k l IH]; intros dl; simpl.
  - now intros [= <-].
  - destruct (getitem_timestamp k) as [t|e]; [|discriminate].
    destruct (decorate l) as [dl'|e]; [|discriminate].
    intros [= <-]. simpl. f_equal. now apply IH.
Qed.


Lemma decorate_ok l :
  Forall (fun x => is_ok (getitem_timestamp x) = true) l -> exists dl, decorate l = Ok dl.
Proof.
  induction 1 as [|x l Hx _ [dl IH]]; simpl; [eauto|].
  destruct (getitem_timestamp x); [|discriminate]. rewrite IH. eauto.
Qed.

(** The decorated list pairs each element with its key. *)
Lemma decorate_in l dl :
  decorate l = Ok dl ->
  forall t k, In (t, k) dl <-> In k l /\ getitem_timestamp k = Ok t.
Proof.
  revert dl; induction l as [|x l IH]; intros dl; simpl.
  - intros [= <-] t k. simpl. tauto.
  - destruct (getitem_timestamp x) as [tx|e] eqn:Hx; [|discriminate].
    destruct (decorate l) as [dl'|e]; [|discriminate].
    intros [= <-] t k. simpl. rewrite (IH dl' eq_refl). split.
    + intros [[= <- <-]|[Hin Hk]]; auto.
    + intros [[<-|Hin] Hk]; [left; congruence|right; auto].
Qed.

Lemma value_lt_ok_iff a b : is_ok (value_lt a b) = true <-> kind a = kind b.
Proof. destruct a, b; simpl; split; congruence. Qed.


Lemma insert_by_key_in x l s :
  insert_by_key x l = Ok s -> forall p, In p s <-> p = x \/ In p l.
Proof.
  revert s; induction l as [|y l IH]; intros s; simpl.
  - intros [= <-] p. simpl. intuition congruence.
  - destruct (value_lt (fst y) (fst x)) as [[|]|e]; [| |discriminate].
    + destruct (insert_by_key x l) as [r|e]; [|discriminate].
      intros [= <-] p. simpl. rewrite (IH r eq_refl). intuition congruence.
    + intros [= <-] p. simpl. intuition congruence.
Qed.


Lemma insert_by_key_ok x l :
  (forall q, In q l -> kind (fst q) = kind (fst x)) -> exists s, insert_by_key x l = Ok s.
Proof.
  induction l as [|y l IH]; intros Hkind; simpl; [eauto|].
  assert (Hy : is_ok (value_lt (fst y) (fst x)) = true)
    by (apply value_lt_ok_iff, Hkind; now left).
  destruct (value_lt (fst y) (fst x)) as [[|]|e]; [| eauto |discriminate].
  destruct IH as [r ->]; [|eauto]. intros q Hq. apply Hkind. now right.
Qed.


(** The sorted list holds the elements that went in. *)
Lemma sort_by_key_in l s : sort_by_key l = Ok s -> forall p, In p s <-> In p l.
Proof.
  revert s; induction l as [|x l IH]; intros s; simpl.
  - intros [= <-] p. tauto.
  - destruct (sort_by_key l) as [s'|e]; [|discriminate].
    intros Hins p. rewrite (insert_by_key_in x s' s Hins), (IH s' eq_refl).
    intuition congruence.
Qed.



(** and whenever they are. *)
Lemma sort_by_key_ok l :
  (forall p q, In p l -> In q l -> kind (fst p) = kind (fst q)) ->
  exists s, sort_by_key l = Ok s.
Proof.
  induction l as [|x l IH]; intros Hkind; simpl; [eauto|].
  destruct IH as [s' Hs']; [intros p q Hp Hq; apply Hkind; now right|].
  rewrite Hs'. apply insert_by_key_ok.
  intros q Hq. apply (sort_by_key_in l s' Hs') in Hq. apply Hkind; [now right|now left].
Qed.

Lemma timestamps_compare_kinds l dl :
  decorate l = Ok dl ->
  timestamps_compare l <->
  (forall p q, In p dl -> In q dl -> kind (fst p) = kind (fst q)).
Proof.
  intros Hdl. unfold timestamps_compare. split.
  - intros Hcmp [tp kp] [tq kq] Hp Hq. simpl.
    apply (decorate_in l dl Hdl) in Hp as [Hp Htp], Hq as [Hq Htq].
    apply value_lt_ok_iff. eauto.
  - intros Hkind a b ta tb Ha Hb Hta Htb.
    apply value_lt_ok_iff.
    apply (Hkind (ta, a) (tb, b)); apply (decorate_in l dl Hdl); auto.
Qed.



(** [sorted] on readable elements whose timestamps all compare: the same
    elements come back. *)
Lemma sorted_comparable l :
  Forall readable l -> timestamps_compare l ->
  exists s, sorted l = Ok s /\ forall k, In k s <-> In k l.
Proof.
  intros Hread Hcmp. destruct (decorate_ok l Hread) as [dl Hdl].
  destruct (sort_by_key_ok dl) as [s Hs];
    [now apply (timestamps_compare_kinds l dl Hdl)|].
  unfold sorted. rewrite Hdl, Hs. eexists. split; [reflexivity|].
  intros k. rewrite <- (decorate_snd l dl Hdl), !in_map_iff.
  split; intros (p & <- & Hp); exists p; (split; [reflexivity|]);
    now apply (sort_by_key_in dl s Hs).
Qed.

End SortingItems.

(** ** [Bucket.insert] *)

Section BucketInsert.
Context {S : Type} `{AbstractStorage S}.

Lemma after_nil (w : State S) : after w (storage_strategy w) [] [] = w.
Proof. destruct w. unfold after. simpl. now rewrite !app_nil_r. Qed.

Lemma ordering_warning_iff last_event oldest :
  (exists r, In r (ordering_warning last_event oldest)) <->
  (exists le oe, last_event = Some le /\ oldest = Some oe /\
                 dt_lt (timestamp oe) (timestamp le) = true).
Proof.
  unfold ordering_warning. split.
  - intros [r Hr]. destruct last_event as [le|], oldest as [oe|]; try (now destruct Hr).
    destruct (dt_lt (timestamp oe) (timestamp le)) eqn:Hlt; [|now destruct Hr]. eauto.
  - intros (le & oe & -> & -> & ->). eexists. now left.
Qed.

(** What [insert] does once [get(1)] has returned [lel], for an event, a
    list of events or another object: the rest of the body, from line 79
    on. *)
Lemma Bucket_insert_after_get (self : Bucket) events (w : State S) lel s1 :
  storage_get_events (bucket_id self) 1 None None (storage_strategy w) = (Ok lel, s1) ->
  (forall l, events = ArgList l -> is_Some (events_of l)) ->
  let w1 := after w s1 [CallGetEvents (bucket_id self) 1 None None] [] in
  Bucket_insert self events w
  = match insert_call (bucket_id self) events, storage_insert (bucket_id self) events s1 with
    | Some call, Some (Ok inserted, s2) =>
        (Ok inserted,
         after w s2 [CallGetEvents (bucket_id self) 1 None None; call]
           (ordering_warning (head lel) (oldest_inserted events)))
    | Some call, Some (Raise e, s2) =>
        (Raise e, after w s2 [CallGetEvents (bucket_id self) 1 None None; call] [])
    | _, _ => (Raise TypeError, w1)
    end.
Proof.
  intros Hget Hevents w1. subst w1.
  unfold Bucket_insert, Bucket_get, bind, lift, call_storage, after. simpl.
  rewrite Hget.
  destruct events as [ev|l|o].
  - destruct lel as [|le lel]; simpl.
    all: destruct (storage_insert_one (bucket_id self) ev s1) as [[ins|e] s2]; simpl.
    all: unfold logger, ret.
    all: try destruct (dt_lt (timestamp ev) (timestamp le)); simpl.
    all: now rewrite <- ?app_assoc, ?app_nil_r.
  - destruct (Hevents l eq_refl) as [es Hes].
    pose proof (events_of_Some l es Hes) as ->. simpl oldest_inserted. rewrite Hes.
    destruct es as [|x es].
    + destruct lel as [|le lel]; simpl.
      all: destruct (storage_insert_many (bucket_id self) [] s1) as [[ins|e] s2]; simpl.
      all: unfold ret.
      all: now rewrite <- ?app_assoc, ?app_nil_r.
    + change (0 <? length (map ItemEvent (x :: es)))%nat with true. cbv iota.
      destruct (sorted_head_min x es) as (srt & -> & ->).
      destruct lel as [|le lel]; simpl.
      all: destruct (storage_insert_many (bucket_id self) (ItemEvent x :: map ItemEvent es) s1)
             as [[ins|e] s2]; simpl.
      all: unfold logger, ret.
      all: try destruct (dt_lt (timestamp (min_by_timestamp x es)) (timestamp le)); simpl.
      all: now rewrite <- ?app_assoc, ?app_nil_r.
  - destruct lel as [|le lel]; simpl; now rewrite ?app_nil_r.
Qed.

(** When [get(1)] itself raises, so does [insert], after that one call. *)
Lemma Bucket_insert_get_raises (self : Bucket) events (w : State S) e s1 :
  storage_get_events (bucket_id self) 1 None None (storage_strategy w) = (Raise e, s1) ->
  Bucket_insert self events w
  = (Raise e, after w s1 [CallGetEvents (bucket_id self) 1 None None] []).
Proof.
  intros Hget. unfold Bucket_insert, Bucket_get, bind, lift, call_storage, after. simpl.
  rewrite Hget. now rewrite app_nil_r.
Qed.

(** C4. [insert] of a single event or of a non-empty list of events, when
    the storage strategy's calls return: the insert call is made whatever
    the timestamps are and its result is returned; the warning is logged
    exactly when [get(1)] gave a last event and the oldest inserted event
    (the event itself, or the minimum by timestamp of the list, ties to the
    first) is strictly earlier than it. *)
Theorem insert_warns_iff_older_than_last
    (self : Bucket) events (w : State S) lel s1 inserted s2 :
  (exists e, events = ArgEvent e) \/ (exists x es, events = list_of_events (x :: es)) ->
  storage_get_events (bucket_id self) 1 None None (storage_strategy w) = (Ok lel, s1) ->
  storage_insert (bucket_id self) events s1 = Some (Ok inserted, s2) ->
  let last_event := head lel in
  let oldest := oldest_inserted events in
  (exists call,
     insert_call (bucket_id self) events = Some call /\
     Bucket_insert self events w
     = (Ok inserted,
        after w s2 [CallGetEvents (bucket_id self) 1 None None; call]
          (ordering_warning last_event oldest))) /\
  ((exists r, In r (ordering_warning last_event oldest)) <->
   (exists le oe, last_event = Some le /\ oldest = Some oe /\
                  dt_lt (timestamp oe) (timestamp le) = true)) /\
  (forall r, In r (ordering_warning last_event oldest) -> level r = WARNING) /\
  (forall e, events = ArgEvent e -> oldest = Some e) /\
  (forall es, events = list_of_events es -> exists oe, oldest = Some oe /\ is_oldest es oe).
Proof.
  intros Hshape Hget Hins last_event oldest. split; [|split; [|split; [|split]]].
  - rewrite (Bucket_insert_after_get self events w lel s1 Hget).
    + rewrite Hins. destruct events as [ev|l|o]; simpl; eauto. discriminate Hins.
    + intros l ->. destruct Hshape as [[e He]|(x & es & He)]; [discriminate|].
      rewrite (list_of_events_inv _ _ He). eauto.
  - apply ordering_warning_iff.
  - intros r Hr. unfold ordering_warning in Hr.
    destruct last_event as [le|], oldest as [oe|]; try (now destruct Hr).
    destruct (dt_lt (timestamp oe) (timestamp le)); [|now destruct Hr].
    destruct Hr as [<-|[]]. reflexivity.
  - intros e ->. reflexivity.
  - intros es ->. subst oldest.
    destruct Hshape as [[e He]|(x & es' & He)]; [discriminate|].
    pose proof (list_of_events_inv _ _ He) as Hes. rewrite events_of_map in Hes.
    injection Hes as ->. simpl. rewrite events_of_map.
    eexists. split; [reflexivity|]. apply min_by_is_first_min.
Qed.


(** The same when the list sorts and its head is [oe]. *)
Lemma Bucket_insert_sorted_head (self : Bucket) k l s oe (w : State S) lel s1 :
  storage_get_events (bucket_id self) 1 None None (storage_strategy w) = (Ok lel, s1) ->
  sorted (k :: l) = Ok s -> index0 s = Ok oe ->
  Bucket_insert self (ArgList (k :: l)) w
  = match storage_insert_many (bucket_id self) (k :: l) s1 with
    | (Raise e, s2) =>
        (Raise e,
         after w s2 [CallGetEvents (bucket_id self) 1 None None;
                     CallInsertMany (bucket_id self) (k :: l)] [])
    | (Ok ins, s2) =>
        let w2 ls := after w s2 [CallGetEvents (bucket_id self) 1 None None;
                                 CallInsertMany (bucket_id self) (k :: l)] ls in
        match head lel with
        | Some le =>
            if item_truthy (Some oe) then
              match getattr_timestamp oe with
              | Ok ts =>
                  (Ok (InsertedMany ins),
                   w2 (if dt_lt ts (timestamp le)
                       then [mk_log "Bucket" WARNING (MsgOlderTimestamp le oe)] else []))
              | Raise e => (Raise e, w2 [])
              end
            else (Ok (InsertedMany ins), w2 [])
        | None => (Ok (InsertedMany ins), w2 [])
        end
    end.
Proof.
  intros Hget Hsorted Hhead.
  unfold Bucket_insert, Bucket_get, bind, lift, call_storage, after. simpl normalize_starttime.
  simpl normalize_endtime. cbv beta iota. rewrite Hget.
  change (0 <? length (k :: l))%nat with true. cbv iota. rewrite Hsorted, Hhead.
  clear Hsorted Hhead.
  destruct lel as [|le lel], oe as [ev|[t|] [|key ks]|n]; simpl.
  all: destruct (storage_insert_many (bucket_id self) (k :: l) s1) as [[ins|e] s2]; simpl.
  all: unfold logger, ret.
  all: try destruct (n =? 0)%Z; simpl.
  all: try destruct (dt_lt (timestamp ev) (timestamp le)); simpl.
  all: now rewrite <- ?app_assoc, ?app_nil_r.
Qed.




(** C9. [insert] of the empty list, once [get(1)] has returned (whatever
    it returned): [insert_many] is called with the empty list, its result
    is what [insert] gives back, and nothing is logged. *)
Theorem insert_empty_list_calls_insert_many_without_warning
    (self : Bucket) (w : State S) lel s1 r s2 :
  storage_get_events (bucket_id self) 1 None None (storage_strategy w) = (Ok lel, s1) ->
  storage_insert_many (bucket_id self) [] s1 = (r, s2) ->
  Bucket_insert self (ArgList []) w
  = (match r with Ok l => Ok (InsertedMany l) | Raise e => Raise e end,
     after w s2 [CallGetEvents (bucket_id self) 1 None None;
                 CallInsertMany (bucket_id self) []] []) /\
  log_records (snd (Bucket_insert self (ArgList []) w)) = log_records w.
Proof.
  intros Hget Hins.
  rewrite (Bucket_insert_after_get self (ArgList []) w lel s1 Hget)
    by (intros l [= <-]; simpl; eauto).
  simpl. rewrite Hins. destruct r as [l|e]; simpl.
  - unfold ordering_warning. destruct (head lel); simpl; now rewrite app_nil_r.
  - now rewrite app_nil_r.
Qed.

End BucketInsert.

(** ** [Datastore] *)

Section DatastoreLookup.
Context {S : Type} `{AbstractStorage S}.

Lemma getitem_cached b h (w : State S) :
  bucket_instances w !! b = Some h -> Datastore_getitem b w = (Ok h, w).
Proof.
  intros Hc. unfold Datastore_getitem, bind, read, ret. simpl. now rewrite !Hc.
Qed.

Lemma getitem_listed b (w : State S) m s' :
  bucket_instances w !! b = None ->
  storage_buckets (storage_strategy w) = (Ok m, s') ->
  is_Some (m !! b) ->
  Datastore_getitem b w
  = (Ok (mk_bucket (next_handle w) b),
     mk_state s' (<[b := mk_bucket (next_handle w) b]> (bucket_instances w))
       (storage_calls w ++ [CallBuckets]) (log_records w)
       (Datatypes.S (next_handle w)) (clock w) (create_bucket_default_created w)).
Proof.
  intros Hc Hb [md Hm].
  unfold Datastore_getitem, Datastore_buckets, bind, read, ret, call_storage. simpl.
  rewrite Hc, Hb. simpl. rewrite Hm. simpl. now rewrite lookup_insert_eq.
Qed.

Lemma getitem_missing b (w : State S) m s' :
  bucket_instances w !! b = None ->
  storage_buckets (storage_strategy w) = (Ok m, s') ->
  m !! b = None ->
  Datastore_getitem b w
  = (Raise KeyError,
     after w s' [CallBuckets] [mk_log "Datastore" ERROR (MsgCannotCreate b)]).
Proof.
  intros Hc Hb Hm.
  unfold Datastore_getitem, Datastore_buckets, bind, read, ret, call_storage. simpl.
  rewrite Hc, Hb. simpl. now rewrite Hm.
Qed.

Lemma getitem_listing_raises b (w : State S) e s' :
  bucket_instances w !! b = None ->
  storage_buckets (storage_strategy w) = (Raise e, s') ->
  Datastore_getitem b w = (Raise e, after w s' [CallBuckets] []).
Proof.
  intros Hc Hb.
  unfold Datastore_getitem, Datastore_buckets, bind, read, ret, call_storage, after. simpl.
  rewrite Hc, Hb. simpl. now rewrite app_nil_r.
Qed.

(** A lookup that returns leaves its handle in the cache. *)
Lemma getitem_ok_cached b h (w w1 : State S) :
  Datastore_getitem b w = (Ok h, w1) -> bucket_instances w1 !! b = Some h.
Proof.
  intros Hget. destruct (bucket_instances w !! b) as [h0|] eqn:Hc.
  - rewrite (getitem_cached b h0 w Hc) in Hget. injection Hget as <- <-. assumption.
  - destruct (storage_buckets (storage_strategy w)) as [[m|e] s'] eqn:Hb.
    + destruct (m !! b) as [md|] eqn:Hm.
      * rewrite (getitem_listed b w m s' Hc Hb) in Hget by eauto.
        injection Hget as <- <-. simpl. apply lookup_insert_eq.
      * rewrite (getitem_missing b w m s' Hc Hb Hm) in Hget. discriminate.
    + rewrite (getitem_listing_raises b w e s' Hc Hb) in Hget. discriminate.
Qed.

(** What a lookup does to the storage when it is not served by the cache:
    one [buckets()] call. *)
Lemma getitem_storage b (w : State S) :
  storage_strategy (snd (Datastore_getitem b w)) = storage_strategy w \/
  storage_strategy (snd (Datastore_getitem b w)) = snd (storage_buckets (storage_strategy w)).
Proof.
  destruct (bucket_instances w !! b) as [h0|] eqn:Hc.
  - left. now rewrite (getitem_cached b h0 w Hc).
  - right. destruct (storage_buckets (storage_strategy w)) as [[m|e] s'] eqn:Hb.
    + destruct (m !! b) as [md|] eqn:Hm.
      * rewrite (getitem_listed b w m s' Hc Hb) by eauto. reflexivity.
      * now rewrite (getitem_missing b w m s' Hc Hb Hm).
    + now rewrite (getitem_listing_raises b w e s' Hc Hb).
Qed.

(** The cache after a lookup: the old one, possibly with the looked-up
    bucket added, and then that bucket was listed. *)
Lemma getitem_cache b (w : State S) :
  bucket_instances (snd (Datastore_getitem b w)) = bucket_instances w \/
  (exists h m,
     bucket_instances (snd (Datastore_getitem b w)) = <[b := h]> (bucket_instances w) /\
     fst (storage_buckets (storage_strategy w)) = Ok m /\ is_Some (m !! b) /\
     storage_strategy (snd (Datastore_getitem b w)) = snd (storage_buckets (storage_strategy w))).
Proof.
  destruct (bucket_instances w !! b) as [h0|] eqn:Hc.
  - left. now rewrite (getitem_cached b h0 w Hc).
  - destruct (storage_buckets (storage_strategy w)) as [[m|e] s'] eqn:Hb.
    + destruct (m !! b) as [md|] eqn:Hm.
      * right. rewrite (getitem_listed b w m s' Hc Hb) by eauto. simpl. eauto 10.
      * left. now rewrite (getitem_missing b w m s' Hc Hb Hm).
    + left. now rewrite (getitem_listing_raises b w e s' Hc Hb).
Qed.

Lemma create_bucket_unfold b t c h created name (w : State S) :
  let cr := isoformat (match created with
                       | Some d => d
                       | None => create_bucket_default_created w
                       end) in
  let w1 := after w (snd (storage_create_bucket b t c h cr name (storage_strategy w)))
              [CallCreateBucket b t c h cr name] [mk_log "Datastore" INFO (MsgCreating b)] in
  Datastore_create_bucket b t c h created name w
  = match fst (storage_create_bucket b t c h cr name (storage_strategy w)) with
    | Ok _ => Datastore_getitem b w1
    | Raise e => (Raise e, w1)
    end.
Proof.
  unfold Datastore_create_bucket, bind, read, logger, call_storage, after. simpl.
  destruct (storage_create_bucket _ _ _ _ _ _ _) as [[u|e] s1]; reflexivity.
Qed.

Lemma delete_bucket_unfold b (w : State S) :
  Datastore_delete_bucket b w
  = (fst (storage_delete_bucket b (storage_strategy w)),
     mk_state (snd (storage_delete_bucket b (storage_strategy w)))
       (delete b (bucket_instances w))
       (storage_calls w ++ [CallDeleteBucket b])
       (log_records w ++ [mk_log "Datastore" INFO (MsgDeleting b)])
       (next_handle w) (clock w) (create_bucket_default_created w)).
Proof.
  unfold Datastore_delete_bucket, bind, read, logger, call_storage, del_bucket_instance, ret.
  simpl. destruct (bucket_instances w !! b) as [h|] eqn:Hc; simpl.
  - rewrite Hc. simpl. now destruct (storage_delete_bucket b (storage_strategy w)).
  - rewrite (delete_id _ _ Hc). simpl. now destruct (storage_delete_bucket b (storage_strategy w)).
Qed.

End DatastoreLookup.

Section DatastoreInvariant.
Context {S : Type} `{AbstractStorage S} `{!StorageContract S}.

Lemma cache_inv_init (storage : S) imported_at now :
  cache_inv (Datastore_init storage imported_at now).
Proof. intros b [h Hh]. simpl in Hh. now rewrite lookup_empty in Hh. Qed.

Lemma cache_inv_getitem b (w : State S) :
  cache_inv w -> cache_inv (snd (Datastore_getitem b w)).
Proof.
  intros Hinv b' Hb'.
  destruct (getitem_cache b w) as [Hsame|(h & m & Hins & Hm & Hlisted & Hs)].
  - rewrite Hsame in Hb'. specialize (Hinv b' Hb').
    destruct (getitem_storage b w) as [-> | ->]; [assumption|].
    now apply buckets_keeps_listing.
  - rewrite Hs. apply buckets_keeps_listing.
    rewrite Hins in Hb'. destruct (decide (b = b')) as [<-|Hne].
    + exists m. split; assumption.
    + rewrite lookup_insert_ne in Hb' by assumption. now apply Hinv.
Qed.

Lemma cache_inv_create_bucket b t c h created name (w : State S) :
  cache_inv w -> cache_inv (snd (Datastore_create_bucket b t c h created name w)).
Proof.
  intros Hinv. rewrite create_bucket_unfold. cbv zeta.
  set (cr := isoformat _).
  assert (Hinv1 : cache_inv (after w (snd (storage_create_bucket b t c h cr name (storage_strategy w)))
                               [CallCreateBucket b t c h cr name]
                               [mk_log "Datastore" INFO (MsgCreating b)])).
  { intros b' Hb'. simpl in *. now apply create_keeps_listing, Hinv. }
  destruct (fst (storage_create_bucket b t c h cr name (storage_strategy w))).
  - now apply cache_inv_getitem.
  - exact Hinv1.
Qed.

Lemma cache_inv_delete_bucket b (w : State S) :
  cache_inv w -> cache_inv (snd (Datastore_delete_bucket b w)).
Proof.
  intros Hinv b' Hb'. rewrite delete_bucket_unfold in *. simpl in *.
  destruct (decide (b = b')) as [<-|Hne].
  - rewrite lookup_delete_eq in Hb'. now destruct Hb'.
  - rewrite lookup_delete_ne in Hb' by assumption.
    apply delete_keeps_others; [congruence|]. now apply Hinv.
Qed.

Lemma cache_inv_buckets (w : State S) :
  cache_inv w -> cache_inv (snd (Datastore_buckets w)).
Proof.
  intros Hinv b' Hb'. unfold Datastore_buckets, call_storage in *.
  destruct (storage_buckets (storage_strategy w)) as [r s'] eqn:Hb. simpl in *.
  replace s' with (snd (storage_buckets (storage_strategy w))) by now rewrite Hb.
  now apply buckets_keeps_listing, Hinv.
Qed.

Lemma cache_inv_run_op o (w : State S) : cache_inv w -> cache_inv (run_op o w).
Proof.
  destruct o; simpl;
    auto using cache_inv_getitem, cache_inv_create_bucket, cache_inv_delete_bucket,
      cache_inv_buckets.
Qed.

Lemma cache_inv_run_ops ops (w : State S) : cache_inv w -> cache_inv (run_ops ops w).
Proof.
  revert w; induction ops as [|o ops IH]; intros w Hinv; simpl; [assumption|].
  apply IH. now apply cache_inv_run_op.
Qed.

(** C6. Lookup: a cached handle is returned as it is; an uncached id that
    the storage strategy lists gets a new handle, which is cached and
    returned; an uncached id that is not listed is logged at error level and
    raises [KeyError].  So an id that is not in the listing cannot be looked
    up, and after [create_bucket] returned the lookup of its id returns the
    handle it gave; [create_bucket] returns whenever the storage strategy's
    own [create_bucket] does. *)
Theorem lookup_cached_listed_or_not_found (b : string) (w : State S) :
  (forall h, bucket_instances w !! b = Some h -> Datastore_getitem b w = (Ok h, w)) /\
  (forall m s',
     bucket_instances w !! b = None ->
     storage_buckets (storage_strategy w) = (Ok m, s') ->
     (is_Some (m !! b) ->
      Datastore_getitem b w
      = (Ok (mk_bucket (next_handle w) b),
         mk_state s' (<[b := mk_bucket (next_handle w) b]> (bucket_instances w))
           (storage_calls w ++ [CallBuckets]) (log_records w)
           (Datatypes.S (next_handle w)) (clock w) (create_bucket_default_created w))) /\
     (m !! b = None ->
      Datastore_getitem b w
      = (Raise KeyError,
         after w s' [CallBuckets] [mk_log "Datastore" ERROR (MsgCannotCreate b)]))) /\
  (forall m s',
     cache_inv w ->
     storage_buckets (storage_strategy w) = (Ok m, s') ->
     m !! b = None ->
     fst (Datastore_getitem b w) = Raise KeyError) /\
  (forall t c h created name hd w1,
     Datastore_create_bucket b t c h created name w = (Ok hd, w1) ->
     Datastore_getitem b w1 = (Ok hd, w1)) /\
  (forall t c h created name,
     fst (storage_create_bucket b t c h
            (isoformat (match created with
                        | Some d => d
                        | None => create_bucket_default_created w
                        end)) name (storage_strategy w)) = Ok tt ->
     exists hd w1, Datastore_create_bucket b t c h created name w = (Ok hd, w1)).
Proof.
  split; [|split; [|split; [|split]]].
  - intros h. apply getitem_cached.
  - intros m s' Hc Hb. split.
    + now apply getitem_listed.
    + now apply getitem_missing.
  - intros m s' Hinv Hb Hm.
    destruct (bucket_instances w !! b) as [h|] eqn:Hc.
    + destruct (Hinv b) as (m' & Hm' & Hin); [eauto|].
      rewrite Hb in Hm'. simpl in Hm'. injection Hm' as <-.
      rewrite Hm in Hin. now destruct Hin.
    + now rewrite (getitem_missing b w m s' Hc Hb Hm).
  - intros t c h created name hd w1 Hcreate.
    apply getitem_cached.
    rewrite create_bucket_unfold in Hcreate. cbv zeta in Hcreate.
    destruct (fst (storage_create_bucket _ _ _ _ _ _ _)); [|discriminate].
    eapply getitem_ok_cached; eauto.
  - intros t c h created name Hok.
    rewrite create_bucket_unfold. cbv zeta. rewrite Hok.
    set (cr := isoformat _) in *. set (w1 := after _ _ _ _).
    destruct (create_lists (storage_strategy w) b t c h cr name Hok) as (m & Hm & Hin).
    destruct (bucket_instances w1 !! b) as [h0|] eqn:Hc.
    + rewrite (getitem_cached b h0 w1 Hc). eauto.
    + destruct (storage_buckets (storage_strategy w1)) as [r s'] eqn:Hb.
      subst w1. simpl in Hb. rewrite Hb in Hm. simpl in Hm. subst r.
      erewrite getitem_listed; eauto.
Qed.

(** C7. Starting from a new Datastore, after any sequence of lookups,
    creations, deletions and listings every cached id is in the storage
    strategy's bucket listing; each operation keeps that invariant.
    [delete_bucket] removes the id from the cache (nothing to remove when it
    is not cached), makes the storage strategy's [delete_bucket] call and
    returns what that call gives. *)
Theorem cache_holds_only_listed_buckets (ops : list Op) (storage : S) imported_at now :
  cache_inv (run_ops ops (Datastore_init storage imported_at now)) /\
  (forall w, cache_inv w -> cache_inv (run_ops ops w)) /\
  (forall b (w : State S),
     let w' := snd (Datastore_delete_bucket b w) in
     bucket_instances w' = delete b (bucket_instances w) /\
     (bucket_instances w !! b = None -> bucket_instances w' = bucket_instances w) /\
     bucket_instances w' !! b = None /\
     storage_calls w' = storage_calls w ++ [CallDeleteBucket b] /\
     storage_strategy w' = snd (storage_delete_bucket b (storage_strategy w)) /\
     fst (Datastore_delete_bucket b w) = fst (storage_delete_bucket b (storage_strategy w))).
Proof.
  split; [|split].
  - apply cache_inv_run_ops, cache_inv_init.
  - intros w. apply cache_inv_run_ops.
  - intros b w w'. subst w'. rewrite delete_bucket_unfold. simpl.
    repeat split.
    + intros Hc. now apply delete_id.
    + apply lookup_delete_eq.
Qed.

End DatastoreInvariant.

Section DatastoreIdempotent.
Context {S : Type} `{AbstractStorage S}.

(** C10. A lookup served by the cache returns the cached handle and leaves
    the whole state as it was: cache, storage, trace of storage calls and
    log.  Hence a lookup that succeeded, repeated at once, returns the same
    handle and changes nothing. *)
Theorem lookup_idempotent_on_cache (b : string) (w : State S) :
  (forall h, bucket_instances w !! b = Some h -> Datastore_getitem b w = (Ok h, w)) /\
  (forall h w1,
     Datastore_getitem b w = (Ok h, w1) ->
     Datastore_getitem b w1 = (Ok h, w1) /\
     storage_calls (snd (Datastore_getitem b w1)) = storage_calls w1 /\
     bucket_instances (snd (Datastore_getitem b w1)) = bucket_instances w1).
Proof.
  split.
  - intros h. apply getitem_cached.
  - intros h w1 Hget.
    assert (Hagain : Datastore_getitem b w1 = (Ok h, w1)).
    { apply getitem_cached. eapply getitem_ok_cached; eauto. }
    rewrite Hagain. auto.
Qed.

(** C8. [get] hands [limit] to the storage strategy as it is and returns
    what the strategy returns; with a strategy that honours [limit], at most
    [limit] events come back when [limit >= 0], and with [limit = -1] all the
    events matching the effective range. *)
Theorem get_passes_limit_through
    (matching : S -> string -> option datetime -> option datetime -> list Event)
    (self : Bucket) limit st en st' en' (w : State S) :
  honors_limit matching ->
  normalize_starttime st = Ok st' ->
  normalize_endtime en = Ok en' ->
  Bucket_get self limit st en w
  = call_storage (CallGetEvents (bucket_id self) limit st' en')
      (storage_get_events (bucket_id self) limit st' en') w /\
  fst (Bucket_get self limit st en w)
  = fst (storage_get_events (bucket_id self) limit st' en' (storage_strategy w)) /\
  (forall l,
     fst (Bucket_get self limit st en w) = Ok l ->
     ((0 <= limit)%Z -> (Z.of_nat (length l) <= limit)%Z) /\
     (limit = (-1)%Z -> l = matching (storage_strategy w) (bucket_id self) st' en')).
Proof.
  intros Hlimit Hst Hen.
  rewrite (Bucket_get_normalized self limit st en st' en' w Hst Hen).
  assert (Hfst : fst (call_storage (CallGetEvents (bucket_id self) limit st' en')
                        (storage_get_events (bucket_id self) limit st' en') w)
                 = fst (storage_get_events (bucket_id self) limit st' en' (storage_strategy w))).
  { unfold call_storage. now destruct (storage_get_events _ _ _ _ _). }
  split; [reflexivity|]. split; [assumption|].
  intros l Hl. rewrite Hfst in Hl.
  destruct (Hlimit _ _ _ _ _ _ Hl) as [Hle Hall]. split; [assumption|].
  intros ->. now apply Hall.
Qed.

End DatastoreIdempotent.

(** ** The memory storage meets the contract *)

Section MemoryStorageFacts.

Lemma memory_in_listing (s : MemoryStorage.t) b : in_listing s b <-> is_Some (s !! b).
Proof.
  unfold in_listing. simpl. split.
  - intros (m & Hm & Hin). injection Hm as <-.
    rewrite lookup_fmap in Hin. now apply fmap_is_Some in Hin.
  - intros Hin. eexists. split; [reflexivity|].
    rewrite lookup_fmap. now apply fmap_is_Some.
Qed.

#[global] Instance memory_storage_contract : StorageContract MemoryStorage.t.
Proof.
  split.
  - intros s b Hin. exact Hin.
  - intros s b b' t c h cr n Hin. apply memory_in_listing in Hin. apply memory_in_listing.
    simpl. destruct (decide (b' = b)) as [->|Hne].
    + rewrite lookup_insert_eq. eauto.
    + now rewrite lookup_insert_ne.
  - intros s b b' Hne Hin. apply memory_in_listing in Hin. apply memory_in_listing.
    simpl. unfold MemoryStorage.delete_bucket.
    destruct (s !! b'); simpl; [|assumption].
    now rewrite lookup_delete_ne by congruence.
  - intros s b t c h cr n _. apply memory_in_listing. simpl.
    rewrite lookup_insert_eq. eauto.
Defined.

Lemma memory_honors_limit : honors_limit MemoryStorage.matching.
Proof.
  intros s b limit st en l. simpl. unfold MemoryStorage.get_events.
  destruct (s !! b) as [mb|] eqn:Hb; simpl; [|discriminate].
  intros Hl. injection Hl as <-. split.
  - intros Hpos. destruct (Z.leb_spec 0 limit); [|lia].
    rewrite length_take. lia.
  - intros Hneg. destruct (Z.leb_spec 0 limit); [lia|reflexivity].
Defined.

End MemoryStorageFacts.

(** ** Concrete runs *)

Section ConcreteRuns.
Import Examples.
Local Open Scope Z_scope.

Lemma create_bucket_omitted_created {S : Type} `{AbstractStorage S}
    b t c h name (w : State S) :
  exists rest,
    storage_calls (snd (Datastore_create_bucket b t c h None name w))
    = storage_calls w
      ++ CallCreateBucket b t c h (isoformat (create_bucket_default_created w)) name :: rest.
Proof.
  rewrite create_bucket_unfold. cbv zeta.
  set (w1 := after _ _ _ _).
  assert (Hw1 : storage_calls w1
                = storage_calls w
                  ++ [CallCreateBucket b t c h (isoformat (create_bucket_default_created w)) name])
    by reflexivity.
  destruct (fst (storage_create_bucket _ _ _ _ _ _ _)); [|exists []; exact Hw1].
  destruct (bucket_instances w1 !! b) as [h0|] eqn:Hc.
  - rewrite (getitem_cached b h0 w1 Hc). exists []. exact Hw1.
  - destruct (storage_buckets (storage_strategy w1)) as [[m|e] s'] eqn:Hb.
    + destruct (m !! b) as [md|] eqn:Hm.
      * rewrite (getitem_listed b w1 m s' Hc Hb) by eauto. simpl.
        exists [CallBuckets]. now rewrite <- app_assoc.
      * rewrite (getitem_missing b w1 m s' Hc Hb Hm). simpl.
        exists [CallBuckets]. now rewrite <- app_assoc.
    + rewrite (getitem_listing_raises b w1 e s' Hc Hb). simpl.
      exists [CallBuckets]. now rewrite <- app_assoc.
Qed.

(** C3 (the code departs from it). With [created] omitted, the timestamp
    handed to the storage strategy is the one taken when the module was
    imported, whatever the clock says at the call: two buckets created in
    June 2017 and in January 2018 both get the import time, 2017-01-01. *)
Theorem create_bucket_default_created_fixed_at_import :
  is_ok (fst (two_creations w0)) = true /\
  created_arguments (storage_calls (snd (two_creations w0)))
  = ["2017-01-01T00:00:00+00:00"; "2017-01-01T00:00:00+00:00"]%string /\
  isoformat noon_june = "2017-06-01T12:00:00+00:00"%string /\
  isoformat new_year_2018 = "2018-01-01T09:30:00.250000+00:00"%string /\
  forall (w : State MemoryStorage.t) b t c h name,
    exists rest,
      storage_calls (snd (Datastore_create_bucket b t c h None name w))
      = storage_calls w
        ++ CallCreateBucket b t c h (isoformat (create_bucket_default_created w)) name :: rest.
Proof.
  split; [vm_compute; reflexivity|].
  split; [vm_compute; reflexivity|].
  split; [vm_compute; reflexivity|].
  split; [vm_compute; reflexivity|].
  intros w b t c h name. apply create_bucket_omitted_created.
Qed.

(** C1 as first stated fails in the last millisecond of year 9999: there is
    no next whole second, [get] raises [OverflowError] and nothing reaches
    the storage strategy. *)
Lemma get_endtime_last_millisecond_overflows :
  valid end_of_time /\
  1000 * (microsecond end_of_time / 1000 + 1) > 999999 /\
  Bucket_get b1 (-1) None (Some end_of_time) w1 = (Raise OverflowError, w1) /\
  ~ (forall en, valid en -> exists en', normalize_endtime (Some en) = Ok (Some en')).
Proof.
  split; [apply validb_valid; reflexivity|].
  split; [reflexivity|].
  split; [reflexivity|].
  intros Hall. destruct (Hall end_of_time) as [en' Hen'].
  - apply validb_valid. reflexivity.
  - vm_compute in Hen'. discriminate Hen'.
Qed.

Lemma get_endtime_rounds_up_witness :
  valid_opt None /\ valid end_of_day /\
  exists st' en',
    normalize_starttime None = Ok st' /\
    Bucket_get b1 (-1) None (Some end_of_day) w1
    = call_storage (CallGetEvents "b1" (-1) st' (Some en'))
        (storage_get_events "b1" (-1) st' (Some en')) w1 /\
    (1000 * (microsecond end_of_day / 1000 + 1) <= 999999 ->
       en' = with_microsecond end_of_day (1000 * (microsecond end_of_day / 1000 + 1))) /\
    (1000 * (microsecond end_of_day / 1000 + 1) > 999999 ->
       microsecond en' = 0 /\ add_one_second (with_microsecond end_of_day 0) = Ok en') /\
    least_ms_boundary_after end_of_day en'.
Proof.
  assert (Hv : valid end_of_day) by (apply validb_valid; reflexivity).
  split; [exact I|]. split; [exact Hv|].
  exact (proj1 (get_endtime_rounds_up_to_next_millisecond b1 (-1) None end_of_day w1 I Hv)
           eq_refl).
Defined.

Lemma get_starttime_truncates_witness :
  valid mid_morning /\ valid_opt None /\ normalize_endtime None = Ok None /\
  Bucket_get b1 (-1) (Some mid_morning) None w1
  = call_storage (CallGetEvents "b1" (-1) (Some (mk_datetime 2017 3 4 10 0 0 123000)) None)
      (storage_get_events "b1" (-1) (Some (mk_datetime 2017 3 4 10 0 0 123000)) None) w1.
Proof.
  assert (Hv : valid mid_morning) by (apply validb_valid; reflexivity).
  split; [exact Hv|]. split; [exact I|]. split; [reflexivity|].
  exact (proj1 (proj2 (get_starttime_truncates_to_millisecond b1 (-1) mid_morning None None w1
                         Hv I eq_refl))).
Defined.

Lemma insert_warns_iff_older_than_last_witness :
  ((exists e, list_of_events late_events = ArgEvent e) \/
   (exists x es, list_of_events late_events = list_of_events (x :: es))) /\
  exists call,
    insert_call "b1" (list_of_events late_events) = Some call /\
    Bucket_insert b1 (list_of_events late_events) w1
    = (Ok (InsertedMany w1_inserted),
       after w1 w1_storage_after [CallGetEvents "b1" 1 None None; call]
         (ordering_warning (head w1_last) (oldest_inserted (list_of_events late_events)))).
Proof.
  assert (Hs : (exists e, list_of_events late_events = ArgEvent e) \/
               (exists x es, list_of_events late_events = list_of_events (x :: es)))
    by (right; eexists _, _; reflexivity).
  split; [exact Hs|].
  refine (proj1 (insert_warns_iff_older_than_last b1 (list_of_events late_events) w1
                   w1_last (storage_strategy w1) (InsertedMany w1_inserted) w1_storage_after
                   Hs _ _)).
  - vm_compute. reflexivity.
  - vm_compute. reflexivity.
Defined.



Lemma insert_empty_list_witness :
  storage_get_events "b1" 1 None None (storage_strategy w1) = (Ok w1_last, storage_strategy w1) /\
  Bucket_insert b1 (ArgList []) w1
  = (Ok (InsertedMany []),
     after w1 (snd (MemoryStorage.insert_many "b1" [] (storage_strategy w1)))
       [CallGetEvents "b1" 1 None None; CallInsertMany "b1" []] []) /\
  log_records (snd (Bucket_insert b1 (ArgList []) w1)) = log_records w1.
Proof.
  assert (Hget : storage_get_events "b1" 1 None None (storage_strategy w1)
                 = (Ok w1_last, storage_strategy w1)) by (vm_compute; reflexivity).
  split; [exact Hget|].
  refine (insert_empty_list_calls_insert_many_without_warning b1 w1 w1_last
            (storage_strategy w1) (Ok []) _ Hget _).
  vm_compute. reflexivity.
Defined.

Lemma lookup_witness :
  StorageContract MemoryStorage.t /\
  forall h, bucket_instances w1 !! "b1" = Some h -> Datastore_getitem "b1" w1 = (Ok h, w1).
Proof.
  split; [exact memory_storage_contract|].
  exact (proj1 (lookup_cached_listed_or_not_found (S := MemoryStorage.t) "b1" w1)).
Defined.

Lemma cache_invariant_witness :
  StorageContract MemoryStorage.t /\
  cache_inv (run_ops [OpCreateBucket "a" "test" "client" "host" None None;
                      OpLookup "a"; OpDeleteBucket "a"; OpLookup "a"; OpBuckets]
               (Datastore_init (∅ : MemoryStorage.t) imported_at noon_june)).
Proof.
  split; [exact memory_storage_contract|].
  exact (proj1 (cache_holds_only_listed_buckets (S := MemoryStorage.t) _ ∅ imported_at noon_june)).
Defined.

Lemma get_passes_limit_through_witness :
  honors_limit MemoryStorage.matching /\
  normalize_starttime (Some mid_morning) = Ok (Some (mk_datetime 2017 3 4 10 0 0 123000)) /\
  normalize_endtime (Some end_of_day) = Ok (Some (mk_datetime 2017 3 5 0 0 0 0)) /\
  forall l,
    fst (Bucket_get b1 1 (Some mid_morning) (Some end_of_day) w1) = Ok l ->
    (0 <= 1 -> Z.of_nat (length l) <= 1) /\
    (1 = -1 ->
     l = MemoryStorage.matching (storage_strategy w1) "b1"
           (Some (mk_datetime 2017 3 4 10 0 0 123000)) (Some (mk_datetime 2017 3 5 0 0 0 0))).
Proof.
  split; [exact memory_honors_limit|]. split; [reflexivity|]. split; [reflexivity|].
  exact (proj2 (proj2 (get_passes_limit_through MemoryStorage.matching b1 1
                         (Some mid_morning) (Some end_of_day) _ _ w1
                         memory_honors_limit eq_refl eq_refl))).
Defined.

End ConcreteRuns.

(** * Further properties of the module *)

(** ** What a computation touches *)

Section Footprint.
Context {S : Type} `{AbstractStorage S}.

Lemma keeps_ret {A} (a : A) : keeps_datastore (ret a : M S A).
Proof. intros w. simpl. auto. Qed.

Lemma keeps_raise {A} e : keeps_datastore (raise e : M S A).
Proof. intros w. simpl. auto. Qed.

Lemma keeps_lift {A} (r : result A) : keeps_datastore (lift r : M S A).
Proof. intros w. simpl. auto. Qed.

Lemma keeps_call {A} c (op : S -> result A * S) : keeps_datastore (call_storage c op).
Proof. intros w. unfold call_storage. destruct (op (storage_strategy w)). simpl. auto. Qed.

Lemma keeps_logger name lvl msg : keeps_datastore (logger name lvl msg : M S unit).
Proof. intros w. simpl. auto. Qed.

Lemma keeps_bind {A B} (m : M S A) (k : A -> M S B) :
  keeps_datastore m -> (forall a, keeps_datastore (k a)) -> keeps_datastore (bind m k).
Proof.
  intros Hm Hk w. unfold bind. specialize (Hm w).
  destruct (m w) as [[a|e] w1]; simpl in *; [|assumption].
  destruct (Hk a w1) as (-> & -> & -> & ->). assumption.
Qed.

Lemma appends_ret {A} P Q (a : A) : appends_only P Q (ret a : M S A).
Proof. intros w. simpl. split; exists []; now rewrite app_nil_r. Qed.

Lemma appends_raise {A} P Q e : appends_only P Q (raise e : M S A).
Proof. intros w. simpl. split; exists []; now rewrite app_nil_r. Qed.

Lemma appends_lift {A} P Q (r : result A) : appends_only P Q (lift r : M S A).
Proof. intros w. simpl. split; exists []; now rewrite app_nil_r. Qed.

Lemma appends_read {A} P Q (f : State S -> A) : appends_only P Q (read f).
Proof. intros w. simpl. split; exists []; now rewrite app_nil_r. Qed.

Lemma appends_call {A} (P : LogRecord -> Prop) (Q : StorageCall -> Prop) c
    (op : S -> result A * S) :
  Q c -> appends_only P Q (call_storage c op).
Proof.
  intros Hc w. unfold call_storage. destruct (op (storage_strategy w)). simpl. split.
  - exists []. now rewrite app_nil_r.
  - exists [c]. split; [reflexivity|]. now constructor.
Qed.

Lemma appends_logger (P : LogRecord -> Prop) (Q : StorageCall -> Prop) name lvl msg :
  P (mk_log name lvl msg) -> appends_only P Q (logger name lvl msg : M S unit).
Proof.
  intros Hr w. simpl. split.
  - exists [mk_log name lvl msg]. split; [reflexivity|]. now constructor.
  - exists []. now rewrite app_nil_r.
Qed.

Lemma appends_bind {A B} P Q (m : M S A) (k : A -> M S B) :
  appends_only P Q m -> (forall a, appends_only P Q (k a)) -> appends_only P Q (bind m k).
Proof.
  intros Hm Hk w. unfold bind. specialize (Hm w).
  destruct (m w) as [[a|e] w1]; simpl in *; [|assumption].
  destruct Hm as [(ls & Hls & HP) (cs & Hcs & HQ)].
  destruct (Hk a w1) as [(ls' & Hls' & HP') (cs' & Hcs' & HQ')]. split.
  - exists (ls ++ ls'). rewrite Hls', Hls, app_assoc. split; [reflexivity|].
    now apply Forall_app.
  - exists (cs ++ cs'). rewrite Hcs', Hcs, app_assoc. split; [reflexivity|].
    now apply Forall_app.
Qed.

End Footprint.

(** Walks through a body written with [let!]: binds, branches, and the
    primitive steps. *)
Ltac footprint :=
  repeat first
    [ apply keeps_bind | apply keeps_ret | apply keeps_raise | apply keeps_lift
    | apply keeps_call | apply keeps_logger
    | apply appends_bind | apply appends_ret | apply appends_raise | apply appends_lift
    | apply appends_read
    | apply appends_call; simpl; now auto
    | apply appends_logger; simpl; now auto
    | progress cbv zeta
    | match goal with
      | |- forall _, _ => intro
      | |- keeps_datastore (match ?x with _ => _ end) => destruct x
      | |- appends_only _ _ (match ?x with _ => _ end) => destruct x
      | |- keeps_datastore (if ?x then _ else _) => destruct x
      | |- appends_only _ _ (if ?x then _ else _) => destruct x
      end ].

(** ** [Bucket] methods stay in their bucket *)

Section BucketFootprint.
Context {S : Type} `{AbstractStorage S}.

Lemma Bucket_get_keeps self limit st en : keeps_datastore (Bucket_get (S := S) self limit st en).
Proof. unfold Bucket_get. footprint. Qed.

Lemma Bucket_insert_keeps self events : keeps_datastore (Bucket_insert (S := S) self events).
Proof. unfold Bucket_insert. footprint; apply Bucket_get_keeps. Qed.

Lemma Bucket_get_appends P self limit st en :
  appends_only P (own_event_call self) (Bucket_get (S := S) self limit st en).
Proof. unfold Bucket_get, own_event_call. footprint. Qed.

Lemma Bucket_insert_appends self events :
  appends_only bucket_warning (own_event_call self) (Bucket_insert (S := S) self events).
Proof.
  unfold Bucket_insert. footprint; try apply Bucket_get_appends.
  all: unfold own_event_call, bucket_warning; simpl; auto.
Qed.

Lemma Bucket_quiet_appends self (o : BucketOp) :
  (forall events, o <> OpInsert events) ->
  forall w : State S,
    (exists ls, log_records (run_bucket_op self o w) = log_records w ++ ls /\
                Forall (fun _ => False) ls) /\
    (exists cs, storage_calls (run_bucket_op self o w) = storage_calls w ++ cs /\
                Forall (own_event_call self) cs).
Proof.
  intros Hnot. destruct o as [|limit st en|events|e|eid e]; simpl.
  - apply (appends_call (A := Metadata)). unfold own_event_call. simpl. auto.
  - apply Bucket_get_appends.
  - now destruct (Hnot events).
  - apply (appends_call (A := unit)). unfold own_event_call. simpl. auto.
  - apply (appends_call (A := unit)). unfold own_event_call. simpl. auto.
Qed.

(** X1. Whatever method is called on a handle, with whatever arguments and
    on whatever storage: the Datastore's cache and its handles are left
    alone, every call made on the storage strategy is a call on the events
    or metadata of the handle's own bucket, and the only thing ever logged
    is a warning of the [Bucket] logger, which only [insert] can add. *)
Theorem bucket_methods_stay_in_their_bucket (self : Bucket) (o : BucketOp) (w : State S) :
  bucket_instances (run_bucket_op self o w) = bucket_instances w /\
  next_handle (run_bucket_op self o w) = next_handle w /\
  (exists cs, storage_calls (run_bucket_op self o w) = storage_calls w ++ cs /\
              Forall (own_event_call self) cs) /\
  (exists ls, log_records (run_bucket_op self o w) = log_records w ++ ls /\
              Forall bucket_warning ls) /\
  ((forall events, o <> OpInsert events) ->
   log_records (run_bucket_op self o w) = log_records w).
Proof.
  assert (Hkeep : bucket_instances (run_bucket_op self o w) = bucket_instances w /\
                  next_handle (run_bucket_op self o w) = next_handle w).
  { destruct o as [|limit st en|events|e|eid e]; simpl.
    - destruct (keeps_call (A := Metadata) (CallGetMetadata (bucket_id self))
                  (storage_get_metadata (bucket_id self)) w) as (? & ? & _). auto.
    - destruct (Bucket_get_keeps self limit st en w) as (? & ? & _). auto.
    - destruct (Bucket_insert_keeps self events w) as (? & ? & _). auto.
    - destruct (keeps_call (A := unit) (CallReplaceLast (bucket_id self) e)
                  (storage_replace_last (bucket_id self) e) w) as (? & ? & _). auto.
    - destruct (keeps_call (A := unit) (CallReplace (bucket_id self) eid e)
                  (storage_replace (bucket_id self) eid e) w) as (? & ? & _). auto. }
  destruct Hkeep as [Hcache Hnext].
  split; [assumption|]. split; [assumption|].
  assert (Hquiet : (forall events, o <> OpInsert events) ->
                   log_records (run_bucket_op self o w) = log_records w).
  { intros Hnot. destruct (Bucket_quiet_appends self o Hnot w) as [(ls & Hls & Hnone) _].
    destruct ls as [|r ls]; [now rewrite app_nil_r in Hls|].
    apply Forall_cons in Hnone as [[] _]. }
  destruct o as [|limit st en|events|e|eid e].
  3: { destruct (Bucket_insert_appends self events w) as [Hlog Hcalls].
       split; [exact Hcalls|]. split; [exact Hlog|]. exact Hquiet. }
  all: split; [apply Bucket_quiet_appends; intros ev; discriminate|].
  all: split; [|exact Hquiet].
  all: exists []; rewrite app_nil_r; split; [|constructor].
  all: apply Hquiet; intros ev; discriminate.
Qed.

End BucketFootprint.

(** ** [Datastore] operations: what they touch *)

Section DatastoreFootprint.
Context {S : Type} `{AbstractStorage S}.

Lemma appends_Bucket_init P Q b : appends_only P Q (Bucket_init (S := S) b).
Proof. intros w. simpl. split; exists []; now rewrite app_nil_r. Qed.

Lemma appends_set_bucket_instance P Q b h :
  appends_only P Q (set_bucket_instance (S := S) b h).
Proof. intros w. simpl. split; exists []; now rewrite app_nil_r. Qed.

Lemma appends_del_bucket_instance P Q b : appends_only P Q (del_bucket_instance (S := S) b).
Proof.
  intros w. unfold del_bucket_instance. destruct (bucket_instances w !! b); simpl.
  all: split; exists []; now rewrite app_nil_r.
Qed.

Lemma Datastore_getitem_appends b :
  appends_only datastore_record bucket_level (Datastore_getitem (S := S) b).
Proof.
  unfold Datastore_getitem, Datastore_buckets, datastore_record, bucket_level.
  footprint; try apply appends_Bucket_init; try apply appends_set_bucket_instance.
  all: simpl; split; [reflexivity|discriminate].
Qed.

Lemma Datastore_create_bucket_appends b t c h created name :
  appends_only datastore_record bucket_level
    (Datastore_create_bucket (S := S) b t c h created name).
Proof.
  unfold Datastore_create_bucket.
  footprint; try apply appends_Bucket_init; try apply appends_set_bucket_instance.
  all: unfold datastore_record, bucket_level; simpl; auto.
  all: split; [reflexivity|discriminate].
Qed.

Lemma Datastore_delete_bucket_appends b :
  appends_only datastore_record bucket_level (Datastore_delete_bucket (S := S) b).
Proof.
  unfold Datastore_delete_bucket.
  footprint; try apply appends_del_bucket_instance.
  all: unfold datastore_record, bucket_level; simpl; auto.
  all: split; [reflexivity|discriminate].
Qed.

Lemma Datastore_buckets_appends :
  appends_only datastore_record bucket_level (Datastore_buckets (S := S)).
Proof. unfold Datastore_buckets. footprint. Qed.

(** X2. No Datastore operation reads or writes events: the only calls a
    lookup, creation, deletion or listing makes on the storage strategy are
    [create_bucket], [delete_bucket] and [buckets], and what it logs comes
    from the [Datastore] logger and is never a warning. *)
Theorem datastore_operations_never_touch_events (o : Op) (w : State S) :
  (exists cs, storage_calls (run_op o w) = storage_calls w ++ cs /\ Forall bucket_level cs) /\
  (exists ls, log_records (run_op o w) = log_records w ++ ls /\ Forall datastore_record ls).
Proof.
  destruct o as [b|b t c h created name|b|]; simpl.
  - destruct (Datastore_getitem_appends b w); auto.
  - destruct (Datastore_create_bucket_appends b t c h created name w); auto.
  - destruct (Datastore_delete_bucket_appends b w); auto.
  - destruct (Datastore_buckets_appends w); auto.
Qed.

(** *** The cache under one operation *)

(** A lookup either leaves the cache and the allocator alone, or caches the
    next handle under the id that was looked up, which was not cached. *)
Lemma getitem_cache_cases b (w : State S) :
  (bucket_instances (snd (Datastore_getitem b w)) = bucket_instances w /\
   next_handle (snd (Datastore_getitem b w)) = next_handle w) \/
  (bucket_instances w !! b = None /\
   fst (Datastore_getitem b w) = Ok (mk_bucket (next_handle w) b) /\
   bucket_instances (snd (Datastore_getitem b w))
   = <[b := mk_bucket (next_handle w) b]> (bucket_instances w) /\
   next_handle (snd (Datastore_getitem b w)) = Datatypes.S (next_handle w)).
Proof.
  destruct (bucket_instances w !! b) as [h0|] eqn:Hc.
  - left. now rewrite (getitem_cached b h0 w Hc).
  - destruct (storage_buckets (storage_strategy w)) as [[m|e] s'] eqn:Hb.
    + destruct (m !! b) as [md|] eqn:Hm.
      * right. rewrite (getitem_listed b w m s' Hc Hb) by eauto. simpl. auto.
      * left. now rewrite (getitem_missing b w m s' Hc Hb Hm).
    + left. now rewrite (getitem_listing_raises b w e s' Hc Hb).
Qed.

(** The same for a creation, which ends in a lookup. *)
Lemma create_bucket_cache_cases b t c h created name (w : State S) :
  (bucket_instances (snd (Datastore_create_bucket b t c h created name w)) = bucket_instances w /\
   next_handle (snd (Datastore_create_bucket b t c h created name w)) = next_handle w) \/
  (bucket_instances w !! b = None /\
   fst (Datastore_create_bucket b t c h created name w) = Ok (mk_bucket (next_handle w) b) /\
   bucket_instances (snd (Datastore_create_bucket b t c h created name w))
   = <[b := mk_bucket (next_handle w) b]> (bucket_instances w) /\
   next_handle (snd (Datastore_create_bucket b t c h created name w))
   = Datatypes.S (next_handle w)).
Proof.
  rewrite create_bucket_unfold. cbv zeta.
  set (w1 := after _ _ _ _).
  destruct (fst (storage_create_bucket _ _ _ _ _ _ _)); [|left; auto].
  exact (getitem_cache_cases b w1).
Qed.

(** What one operation does to the cache and the allocator. *)
Lemma run_op_cache_cases o (w : State S) :
  (bucket_instances (run_op o w) = bucket_instances w /\
   next_handle (run_op o w) = next_handle w) \/
  (exists b, op_target o = Some b /\ bucket_instances w !! b = None /\
             bucket_instances (run_op o w)
             = <[b := mk_bucket (next_handle w) b]> (bucket_instances w) /\
             next_handle (run_op o w) = Datatypes.S (next_handle w)) \/
  (exists b, o = OpDeleteBucket b /\
             bucket_instances (run_op o w) = delete b (bucket_instances w) /\
             next_handle (run_op o w) = next_handle w).
Proof.
  destruct o as [b|b t c h created name|b|]; simpl.
  - destruct (getitem_cache_cases b w) as [?|(? & _ & ? & ?)]; [now left|].
    right; left. exists b. auto.
  - destruct (create_bucket_cache_cases b t c h created name w) as [?|(? & _ & ? & ?)];
      [now left|].
    right; left. exists b. auto.
  - right; right. exists b. rewrite delete_bucket_unfold. simpl. auto.
  - left. unfold Datastore_buckets, call_storage.
    now destruct (storage_buckets (storage_strategy w)).
Qed.

Lemma run_op_next_handle o (w : State S) : next_handle w <= next_handle (run_op o w).
Proof.
  destruct (run_op_cache_cases o w)
    as [[_ ->]|[(b & _ & _ & _ & ->)|(b & _ & _ & ->)]]; lia.
Qed.

Lemma handles_inv_run_op o (w : State S) : handles_inv w -> handles_inv (run_op o w).
Proof.
  intros [Hbound Hinj]. unfold handles_inv.
  destruct (run_op_cache_cases o w)
    as [[Hc Hn]|[(b & _ & Hnone & Hc & Hn)|(b & _ & Hc & Hn)]]; rewrite Hc, Hn.
  - split; assumption.
  - split.
    + intros b' h'. rewrite lookup_insert. case_decide as Hb.
      * subst b'. intros [= <-]. simpl. split; [reflexivity|lia].
      * intros Hh. destruct (Hbound b' h' Hh). split; [assumption|lia].
    + intros b1 b2 h1 h2. rewrite !lookup_insert.
      repeat case_decide; subst; try congruence.
      * intros [= <-] Hh2 Heq. simpl in Heq. destruct (Hbound b2 h2 Hh2). lia.
      * intros Hh1 [= <-] Heq. simpl in Heq. destruct (Hbound b1 h1 Hh1). lia.
      * apply Hinj.
  - split.
    + intros b' h'. rewrite lookup_delete. case_decide; [discriminate|]. apply Hbound.
    + intros b1 b2 h1 h2. rewrite !lookup_delete.
      repeat case_decide; try discriminate. apply Hinj.
Qed.

Lemma handles_inv_run_ops ops (w : State S) : handles_inv w -> handles_inv (run_ops ops w).
Proof.
  revert w; induction ops as [|o ops IH]; intros w Hinv; simpl; [assumption|].
  apply IH. now apply handles_inv_run_op.
Qed.

Lemma handles_inv_init (storage : S) imported_at now :
  handles_inv (Datastore_init storage imported_at now).
Proof.
  split.
  - intros b h Hh. simpl in Hh. now rewrite lookup_empty in Hh.
  - intros b1 b2 h1 h2 Hh. simpl in Hh. now rewrite lookup_empty in Hh.
Qed.

(** An operation that does not name [b'] leaves its cache entry alone. *)
Lemma run_op_other o b' (w : State S) :
  op_target o <> Some b' -> bucket_instances (run_op o w) !! b' = bucket_instances w !! b'.
Proof.
  intros Hne.
  destruct (run_op_cache_cases o w)
    as [[-> _]|[(b & Ht & _ & -> & _)|(b & -> & -> & _)]]; [reflexivity| |].
  - apply lookup_insert_ne. congruence.
  - apply lookup_delete_ne. simpl in Hne. congruence.
Qed.

(** Nor does one that names it without deleting it, once it is cached. *)
Lemma run_op_cached o b h (w : State S) :
  o <> OpDeleteBucket b -> bucket_instances w !! b = Some h ->
  bucket_instances (run_op o w) !! b = Some h.
Proof.
  intros Hne Hc.
  destruct (run_op_cache_cases o w)
    as [[-> _]|[(b' & Ht & Hnone & -> & _)|(b' & -> & -> & _)]]; [assumption| |].
  - rewrite lookup_insert_ne; [assumption|]. congruence.
  - rewrite lookup_delete_ne; [assumption|]. congruence.
Qed.

End DatastoreFootprint.

(** ** Handles over sequences of operations *)

Section Handles.
Context {S : Type} `{AbstractStorage S}.

(** X3. In a Datastore built from a storage factory, after any sequence of
    operations: every cached handle carries the id it is cached under, was
    handed out by the allocator, and no two ids share a handle; so the
    handle a lookup returns is a handle on the bucket that was asked for. *)
Theorem cached_handles_are_bound_to_their_id
    (storage_strategy : bool -> S) testing imported_at now (ops : list Op) :
  handles_inv (run_ops ops (Datastore_construct storage_strategy testing imported_at now)) /\
  forall b h w1,
    Datastore_getitem b
      (run_ops ops (Datastore_construct storage_strategy testing imported_at now)) = (Ok h, w1) ->
    bucket_id h = b.
Proof.
  set (w := run_ops ops _).
  assert (Hinv : handles_inv w) by apply handles_inv_run_ops, handles_inv_init.
  split; [assumption|].
  intros b h w1 Hget.
  pose proof (handles_inv_run_op (OpLookup b) w Hinv) as [Hbound _]. simpl in Hbound.
  rewrite Hget in Hbound. simpl in Hbound.
  apply (Hbound b h). eapply getitem_ok_cached; eauto.
Qed.

(** X4. Once a handle is cached for an id, it stays the handle of that id
    through any operations other than [delete_bucket] of that id: lookups,
    creations (of this or other ids), deletions of other ids and listings.
    A lookup afterwards returns that very handle and changes nothing. *)
Theorem handle_is_stable_until_deleted (ops : list Op) b h (w : State S) :
  bucket_instances w !! b = Some h ->
  Forall (fun o => o <> OpDeleteBucket b) ops ->
  bucket_instances (run_ops ops w) !! b = Some h /\
  Datastore_getitem b (run_ops ops w) = (Ok h, run_ops ops w).
Proof.
  intros Hc Hops.
  assert (Hend : bucket_instances (run_ops ops w) !! b = Some h).
  { revert w Hc; induction Hops as [|o ops Ho _ IH]; intros w Hc; simpl; [assumption|].
    apply IH. now apply run_op_cached. }
  split; [assumption|]. now apply getitem_cached.
Qed.

(** X5. Operations that do not name an id leave its cache entry as it was,
    cached or not: handles of other buckets are neither created, replaced
    nor evicted. *)
Theorem operations_leave_other_ids_alone (ops : list Op) b' (w : State S) :
  Forall (fun o => op_target o <> Some b') ops ->
  bucket_instances (run_ops ops w) !! b' = bucket_instances w !! b'.
Proof.
  intros Hops. revert w; induction Hops as [|o ops Ho _ IH]; intros w; simpl; [reflexivity|].
  rewrite IH. now apply run_op_other.
Qed.

(** Every handle cached after a run was cached before it or allocated
    during it. *)
Lemma run_ops_handles_since (ops : list Op) (w0 w : State S) :
  next_handle w0 <= next_handle w ->
  (forall b h, bucket_instances w !! b = Some h ->
               bucket_instances w0 !! b = Some h \/ next_handle w0 <= handle h) ->
  forall b h, bucket_instances (run_ops ops w) !! b = Some h ->
              bucket_instances w0 !! b = Some h \/ next_handle w0 <= handle h.
Proof.
  revert w; induction ops as [|o ops IH]; intros w Hle Hsince; simpl; [assumption|].
  apply IH.
  - pose proof (run_op_next_handle o w). lia.
  - intros b h.
    destruct (run_op_cache_cases o w)
      as [[-> _]|[(b' & _ & _ & -> & _)|(b' & _ & -> & _)]].
    + apply Hsince.
    + rewrite lookup_insert. case_decide.
      * intros [= <-]. simpl. right. lia.
      * apply Hsince.
    + rewrite lookup_delete. case_decide; [discriminate|]. apply Hsince.
Qed.

(** X6. A handle evicted by [delete_bucket] never comes back: whatever is
    done afterwards, a handle cached again under that id is a new object,
    allocated after the evicted one. *)
Theorem evicted_handle_is_never_cached_again (ops : list Op) b h_old (w : State S) :
  handles_inv w ->
  bucket_instances w !! b = Some h_old ->
  forall h,
    bucket_instances (run_ops ops (snd (Datastore_delete_bucket b w))) !! b = Some h ->
    handle h_old < handle h /\ h <> h_old.
Proof.
  intros [Hbound _] Hold h Hh.
  set (w' := snd (Datastore_delete_bucket b w)) in *.
  assert (Hnext : next_handle w' = next_handle w)
    by (subst w'; now rewrite delete_bucket_unfold).
  assert (Hgone : bucket_instances w' !! b = None).
  { subst w'. rewrite delete_bucket_unfold. simpl. apply lookup_delete_eq. }
  destruct (run_ops_handles_since ops w' w' (le_n _) (fun _ _ Hc => or_introl Hc) b h Hh)
    as [Hstill|Hnew].
  - congruence.
  - destruct (Hbound b h_old Hold) as [_ Hlt].
    split; [lia|]. intros ->. lia.
Qed.

(** X7. A lookup or a creation that raises, for whatever reason (the id is
    not listed, or the storage strategy raised), caches nothing and
    allocates no handle. *)
Theorem failed_lookup_or_creation_caches_nothing (w : State S) :
  (forall b e,
     fst (Datastore_getitem b w) = Raise e ->
     bucket_instances (snd (Datastore_getitem b w)) = bucket_instances w /\
     next_handle (snd (Datastore_getitem b w)) = next_handle w) /\
  (forall b t c h created name e,
     fst (Datastore_create_bucket b t c h created name w) = Raise e ->
     bucket_instances (snd (Datastore_create_bucket b t c h created name w))
     = bucket_instances w /\
     next_handle (snd (Datastore_create_bucket b t c h created name w)) = next_handle w).
Proof.
  split.
  - intros b e Hraise.
    destruct (getitem_cache_cases b w) as [?|(_ & Hok & _)]; [assumption|].
    rewrite Hok in Hraise. discriminate.
  - intros b t c h created name e Hraise.
    destruct (create_bucket_cache_cases b t c h created name w) as [?|(_ & Hok & _)];
      [assumption|].
    rewrite Hok in Hraise. discriminate.
Qed.

(** X8. [create_bucket] for an id whose handle is cached still makes the
    storage strategy's [create_bucket] call; when that call returns, the
    cached handle is returned, the listing is not consulted and no new handle
    is made; when it raises, the error is passed on. *)
Theorem create_bucket_on_cached_id_returns_cached_handle
    b t c h created name hd (w : State S) :
  bucket_instances w !! b = Some hd ->
  let cr := isoformat (match created with
                       | Some d => d
                       | None => create_bucket_default_created w
                       end) in
  Datastore_create_bucket b t c h created name w
  = (match fst (storage_create_bucket b t c h cr name (storage_strategy w)) with
     | Ok _ => Ok hd
     | Raise e => Raise e
     end,
     after w (snd (storage_create_bucket b t c h cr name (storage_strategy w)))
       [CallCreateBucket b t c h cr name] [mk_log "Datastore" INFO (MsgCreating b)]).
Proof.
  intros Hc cr. rewrite create_bucket_unfold. cbv zeta. fold cr.
  destruct (fst (storage_create_bucket b t c h cr name (storage_strategy w))); [|reflexivity].
  now apply getitem_cached.
Qed.

(** X19. After [delete_bucket], a lookup of that id is never served from
    the cache: it asks the storage strategy for the listing, and when the id
    is not in it the lookup raises [KeyError] and logs the error, whether or
    not a handle had been cached before the deletion. *)
Theorem lookup_after_delete_asks_the_storage b (w : State S) m s' :
  storage_buckets (storage_strategy (snd (Datastore_delete_bucket b w))) = (Ok m, s') ->
  m !! b = None ->
  Datastore_getitem b (snd (Datastore_delete_bucket b w))
  = (Raise KeyError,
     after (snd (Datastore_delete_bucket b w)) s' [CallBuckets]
       [mk_log "Datastore" ERROR (MsgCannotCreate b)]).
Proof.
  intros Hb Hm. apply (getitem_missing b _ m s'); [|assumption..].
  rewrite delete_bucket_unfold. simpl. apply lookup_delete_eq.
Qed.

End Handles.

(** ** [Bucket.get]: more on the normalised range *)

Section GetRange.
Context {S : Type} `{AbstractStorage S}.
Local Open Scope Z_scope.

Lemma normalize_endtime_least en en' :
  valid en -> normalize_endtime (Some en) = Ok (Some en') -> least_ms_boundary_after en en'.
Proof.
  intros Hen Hnorm. destruct (dt_lt en last_ms_boundary) eqn:Hlast.
  - destruct (normalize_endtime_rounds_up en Hen Hlast) as (en'' & Heq & _ & _ & Hleast).
    rewrite Heq in Hnorm. now injection Hnorm as <-.
  - rewrite (normalize_endtime_overflow en Hen Hlast) in Hnorm. discriminate.
Qed.

Lemma normalize_endtime_cases en :
  valid en ->
  normalize_endtime (Some en) = Raise OverflowError \/
  exists en', normalize_endtime (Some en) = Ok (Some en') /\ least_ms_boundary_after en en'.
Proof.
  intros Hen. destruct (dt_lt en last_ms_boundary) eqn:Hlast.
  - right. destruct (normalize_endtime_rounds_up en Hen Hlast) as (en' & Heq & _ & _ & Hleast).
    eauto.
  - left. now apply normalize_endtime_overflow.
Qed.

(** X9. The storage strategy never sees sub-millisecond times from [get]:
    either [get] raises [OverflowError] without calling it, or it makes one
    [get_events] call whose start and end, when given, are valid datetimes
    on whole milliseconds; an omitted bound stays omitted. *)
Theorem get_hands_over_whole_milliseconds
    (self : Bucket) limit st en (w : State S) :
  valid_opt st -> valid_opt en ->
  (Bucket_get self limit st en w = (Raise OverflowError, w)) \/
  (exists st' en',
     storage_calls (snd (Bucket_get self limit st en w))
     = storage_calls w ++ [CallGetEvents (bucket_id self) limit st' en'] /\
     opt_ms_boundary st' /\ opt_ms_boundary en' /\
     (st' = None <-> st = None) /\ (en' = None <-> en = None)).
Proof.
  intros Hst Hen.
  assert (Hstart : exists st', normalize_starttime st = Ok st' /\ opt_ms_boundary st' /\
                               (st' = None <-> st = None)).
  { destruct st as [st|].
    - destruct (normalize_starttime_truncates st Hst) as [Heq (Hv & Hms & _)].
      eexists. split; [exact Heq|]. split; [now split|]. split; discriminate.
    - exists None. simpl. tauto. }
  destruct Hstart as (st' & Hnst & Hst' & Hnone).
  assert (Hend : normalize_endtime en = Raise OverflowError \/
                 exists en', normalize_endtime en = Ok en' /\ opt_ms_boundary en' /\
                             (en' = None <-> en = None)).
  { destruct en as [en|].
    - destruct (normalize_endtime_cases en Hen) as [?|(en' & Heq & Hv & Hms & _)]; [now left|].
      right. exists (Some en'). split; [exact Heq|]. split; [now split|]. split; discriminate.
    - right. exists None. simpl. tauto. }
  destruct Hend as [Hover|(en' & Hnen & Hen' & Hnone')].
  - left. unfold Bucket_get, bind, lift. now rewrite Hnst, Hover.
  - right. exists st', en'.
    rewrite (Bucket_get_normalized self limit st en st' en' w Hnst Hnen).
    unfold call_storage. destruct (storage_get_events _ _ _ _ _). simpl. auto.
Qed.

(** X10. Rounding the end up is never the identity: the effective
    [endtime] is always strictly later than the given one, and an [endtime]
    that is already on a whole millisecond (below .999) is moved on by
    exactly one millisecond. *)
Theorem endtime_on_a_boundary_still_moves en :
  valid en ->
  (forall en', normalize_endtime (Some en) = Ok (Some en') ->
               dt_lt en en' = true /\ en' <> en) /\
  (ms_boundary en -> microsecond en < 999000 ->
   normalize_endtime (Some en) = Ok (Some (with_microsecond en (microsecond en + 1000)))).
Proof.
  intros Hen. split.
  - intros en' Hnorm. destruct (normalize_endtime_least en en' Hen Hnorm) as (_ & _ & Hlt & _).
    split; [assumption|]. intros ->. now rewrite dt_lt_irrefl in Hlt.
  - intros Hms Hroom.
    assert (Hus : 0 <= microsecond en <= 999999) by (unfold valid in Hen; tauto).
    unfold ms_boundary in Hms.
    unfold normalize_endtime. rewrite int_div_1000_plus_1_floor by lia.
    replace (1000 * (microsecond en / 1000 + 1)) with (microsecond en + 1000) by dlia.
    destruct (Z.gtb_spec (microsecond en + 1000) 999999); [lia|].
    now rewrite replace_microsecond_ok by lia.
Qed.

(** X11. Truncating the start is idempotent, and it leaves a [starttime]
    unchanged exactly when that is already on a whole millisecond. *)
Theorem starttime_truncation_is_idempotent st :
  valid st ->
  (exists st', normalize_starttime (Some st) = Ok (Some st') /\
               normalize_starttime (Some st') = Ok (Some st')) /\
  (normalize_starttime (Some st) = Ok (Some st) <-> ms_boundary st).
Proof.
  intros Hst.
  assert (Hus : 0 <= microsecond st <= 999999) by (unfold valid in Hst; tauto).
  destruct (normalize_starttime_truncates st Hst) as [Heq (Hv & Hms & _)].
  split.
  - eexists. split; [exact Heq|].
    destruct (normalize_starttime_truncates _ Hv) as [Heq' _]. rewrite Heq'.
    do 2 f_equal. unfold with_microsecond. simpl. f_equal. dlia.
  - rewrite Heq. unfold ms_boundary. split.
    + intros [= Hsame]. destruct st as [y m d h mi s us]. simpl in *.
      injection Hsame as Hsame. dlia.
    + intros Hb. do 2 f_equal. destruct st as [y m d h mi s us]. simpl in *.
      unfold with_microsecond. simpl. f_equal. dlia.
Qed.

(** X12. A range given in order stays in order and is never empty once
    normalised: for [starttime <= endtime] (even when they are equal) the
    effective start is strictly before the effective end, the start has
    not moved forward and the end has moved forward. *)
Theorem normalized_range_is_never_empty st en en' :
  valid st -> valid en -> dt_le st en = true ->
  normalize_endtime (Some en) = Ok (Some en') ->
  exists st',
    normalize_starttime (Some st) = Ok (Some st') /\
    dt_lt st' en' = true /\
    dt_le st' st = true /\
    dt_lt en en' = true.
Proof.
  intros Hst Hen Hle Hnorm.
  destruct (normalize_starttime_truncates st Hst) as [Heq (_ & _ & Hlo & _)].
  destruct (normalize_endtime_least en en' Hen Hnorm) as (_ & _ & Hhi & _).
  eexists. split; [exact Heq|].
  set (st' := with_microsecond st _) in *.
  assert (Hsten : dt_lt st en' = true) by (eapply dt_le_lt_trans; eauto).
  split; [eapply dt_le_lt_trans; eauto|]. split; assumption.
Qed.

(** X13. Normalisation keeps the order of times: an earlier [starttime]
    gives an effective start that is not later, and an earlier [endtime]
    gives an effective end that is not later. *)
Theorem normalisation_is_monotone a b :
  valid a -> valid b -> dt_le a b = true ->
  (forall a' b',
     normalize_starttime (Some a) = Ok (Some a') ->
     normalize_starttime (Some b) = Ok (Some b') -> dt_le a' b' = true) /\
  (forall a' b',
     normalize_endtime (Some a) = Ok (Some a') ->
     normalize_endtime (Some b) = Ok (Some b') -> dt_le a' b' = true).
Proof.
  intros Ha Hb Hle. split; intros a' b' Hna Hnb.
  - destruct (normalize_starttime_truncates a Ha) as [Heqa (Hva & Hmsa & Hlea & _)].
    destruct (normalize_starttime_truncates b Hb) as [Heqb (_ & _ & _ & Hgreatest)].
    rewrite Heqa in Hna. rewrite Heqb in Hnb.
    injection Hna as <-. injection Hnb as <-.
    apply Hgreatest; [assumption..|]. eapply dt_le_trans; eauto.
  - destruct (normalize_endtime_least a a' Ha Hna) as (_ & _ & _ & Hleast).
    destruct (normalize_endtime_least b b' Hb Hnb) as (Hvb & Hmsb & Hltb & _).
    apply Hleast; [assumption..|]. eapply dt_le_lt_trans; eauto.
Qed.

End GetRange.

(** ** [Bucket.insert]: failures and lists of other things *)

Section InsertEdges.
Context {S : Type} `{AbstractStorage S}.

(** The head of [sorted(l)] is an element of [l]. *)
Lemma sorted_head_in k l :
  Forall readable (k :: l) -> timestamps_compare (k :: l) ->
  exists s o, sorted (k :: l) = Ok s /\ index0 s = Ok o /\ In o (k :: l).
Proof.
  intros Hread Hcmp. destruct (sorted_comparable (k :: l) Hread Hcmp) as (s & Hs & Hin).
  destruct s as [|o s].
  - destruct (proj2 (Hin k) (or_introl eq_refl)).
  - exists (o :: s), o. split; [assumption|]. split; [reflexivity|].
    apply Hin. now left.
Qed.

(** Dicts whose timestamps are UTC datetimes can be read and compared. *)
Lemma timestamped_dicts_sort l :
  Forall is_timestamped_dict l -> Forall readable l /\ timestamps_compare l.
Proof.
  intros Hdicts. split.
  - eapply Forall_impl; [exact Hdicts|].
    intros [ev|[[d|d|n|s]|] ks|n] Hd; simpl in Hd; try tauto. reflexivity.
  - intros a b ta tb Ha Hb Hta Htb.
    rewrite Forall_forall in Hdicts.
    pose proof (Hdicts a (proj2 (list_elem_of_In _ _) Ha)) as Hda.
    pose proof (Hdicts b (proj2 (list_elem_of_In _ _) Hb)) as Hdb.
    destruct a as [ev|[[d|d|n|s]|] ks|n]; simpl in Hda; try tauto.
    destruct b as [ev|[[d'|d'|n|s]|] ks'|n]; simpl in Hdb; try tauto.
    simpl in Hta, Htb. injection Hta as <-. injection Htb as <-. reflexivity.
Qed.

(** The first minimum is not later than any element. *)
Lemma is_first_min_le {A} (key : A -> datetime) l o e :
  is_first_min key l o -> In e l -> dt_le (key o) (key e) = true.
Proof.
  intros (l1 & l2 & -> & Hbefore & Hafter) Hin.
  apply in_app_or in Hin as [Hin|[<-|Hin]].
  - apply dt_lt_le. rewrite Forall_forall in Hbefore. apply Hbefore.
    now apply list_elem_of_In.
  - apply dt_le_refl.
  - apply dt_lt_false_le. rewrite Forall_forall in Hafter. apply Hafter.
    now apply list_elem_of_In.
Qed.

Lemma is_first_min_in {A} (key : A -> datetime) l o : is_first_min key l o -> In o l.
Proof. intros (l1 & l2 & -> & _). apply in_or_app. right. now left. Qed.

(** X14. [insert] reads before it writes: when the preliminary [get(1)]
    raises, [insert] raises the same error for any argument, a valid event
    included, and neither [insert_one] nor [insert_many] is called. *)
Theorem insert_fails_when_the_prior_read_fails
    (self : Bucket) events (w : State S) e s1 :
  storage_get_events (bucket_id self) 1 None None (storage_strategy w) = (Raise e, s1) ->
  Bucket_insert self events w
  = (Raise e, after w s1 [CallGetEvents (bucket_id self) 1 None None] []) /\
  List.filter is_insert_call (storage_calls (snd (Bucket_insert self events w)))
  = List.filter is_insert_call (storage_calls w).
Proof.
  intros Hget. rewrite (Bucket_insert_get_raises self events w e s1 Hget).
  split; [reflexivity|]. simpl. rewrite List.filter_app. simpl. now rewrite app_nil_r.
Qed.

(** X15. When the storage strategy's insert call raises, [insert] passes
    the error on as it is and logs nothing, however old the inserted events
    are; what the failed call did to the storage is not undone. *)
Theorem insert_passes_on_a_storage_error
    (self : Bucket) events (w : State S) lel s1 e s2 :
  (exists ev, events = ArgEvent ev) \/ (exists es, events = list_of_events es) ->
  storage_get_events (bucket_id self) 1 None None (storage_strategy w) = (Ok lel, s1) ->
  storage_insert (bucket_id self) events s1 = Some (Raise e, s2) ->
  exists call,
    insert_call (bucket_id self) events = Some call /\
    Bucket_insert self events w
    = (Raise e, after w s2 [CallGetEvents (bucket_id self) 1 None None; call] []) /\
    log_records (snd (Bucket_insert self events w)) = log_records w.
Proof.
  intros Hshape Hget Hins.
  rewrite (Bucket_insert_after_get self events w lel s1 Hget).
  - rewrite Hins. destruct events as [ev|l|o]; simpl.
    + eexists. split; [reflexivity|]. split; [reflexivity|]. now rewrite app_nil_r.
    + eexists. split; [reflexivity|]. split; [reflexivity|]. now rewrite app_nil_r.
    + discriminate Hins.
  - intros l ->. destruct Hshape as [[ev He]|[es He]]; [discriminate|].
    rewrite (list_of_events_inv _ _ He). eauto.
Qed.


(** X17. For a non-empty list of events, when the storage strategy's calls
    return, [insert] logs something exactly when the bucket had a last event
    and some inserted event is strictly earlier than it; one earlier event
    anywhere in the list is enough, and equal timestamps do not count. *)
Theorem insert_warns_iff_some_event_is_earlier
    (self : Bucket) x es (w : State S) lel s1 inserted s2 :
  storage_get_events (bucket_id self) 1 None None (storage_strategy w) = (Ok lel, s1) ->
  storage_insert_many (bucket_id self) (map ItemEvent (x :: es)) s1 = (Ok inserted, s2) ->
  log_records (snd (Bucket_insert self (list_of_events (x :: es)) w)) <> log_records w <->
  exists le e, head lel = Some le /\ In e (x :: es) /\
               dt_lt (timestamp e) (timestamp le) = true.
Proof.
  intros Hget Hins.
  rewrite (Bucket_insert_after_get self (list_of_events (x :: es)) w lel s1 Hget)
    by (intros l Hl; rewrite (list_of_events_inv l (x :: es) (eq_sym Hl)); eauto).
  unfold list_of_events. simpl insert_call. simpl storage_insert.
  change (ItemEvent x :: map ItemEvent es) with (map ItemEvent (x :: es)).
  rewrite Hins. simpl oldest_inserted. rewrite events_of_map. simpl snd. simpl log_records.
  pose proof (min_by_is_first_min timestamp x es) as Hmin.
  fold (min_by_timestamp x es) in Hmin.
  unfold ordering_warning. split.
  - intros Hneq. destruct (head lel) as [le|]; [|now rewrite app_nil_r in Hneq].
    destruct (dt_lt (timestamp (min_by_timestamp x es)) (timestamp le)) eqn:Hlt;
      [|now rewrite app_nil_r in Hneq].
    exists le, (min_by_timestamp x es). split; [reflexivity|].
    split; [now apply (is_first_min_in timestamp)|assumption].
  - intros (le & e & -> & Hin & Hlt).
    assert (Hmlt : dt_lt (timestamp (min_by_timestamp x es)) (timestamp le) = true).
    { eapply dt_le_lt_trans; [|exact Hlt]. now apply (is_first_min_le timestamp (x :: es)). }
    rewrite Hmlt. intros Heq.
    apply (f_equal (@length LogRecord)) in Heq. rewrite length_app in Heq. simpl in Heq. lia.
Qed.

(** X18. A non-empty list of plain dicts whose ['timestamp'] entries are
    all UTC datetimes is sorted and handed to [insert_many] like a list of
    events, when that call returns.  When the bucket had no event, [insert]
    returns the storage strategy's result; when it had one, [insert] raises
    [AttributeError] on [oldest_event.timestamp], after [insert_many] has
    run. *)
Theorem insert_stores_plain_dicts_then_may_raise
    (self : Bucket) k l (w : State S) lel s1 inserted s2 :
  Forall is_timestamped_dict (k :: l) ->
  storage_get_events (bucket_id self) 1 None None (storage_strategy w) = (Ok lel, s1) ->
  storage_insert_many (bucket_id self) (k :: l) s1 = (Ok inserted, s2) ->
  Bucket_insert self (ArgList (k :: l)) w
  = (match lel with
     | [] => Ok (InsertedMany inserted)
     | _ :: _ => Raise AttributeError
     end,
     after w s2 [CallGetEvents (bucket_id self) 1 None None;
                 CallInsertMany (bucket_id self) (k :: l)] []).
Proof.
  intros Hdicts Hget Hins.
  destruct (timestamped_dicts_sort (k :: l) Hdicts) as [Hread Hcmp].
  destruct (sorted_head_in k l Hread Hcmp) as (s & oe & Hsorted & Hhead & Hin).
  rewrite (Bucket_insert_sorted_head self k l s oe w lel s1 Hget Hsorted Hhead), Hins.
  rewrite Forall_forall in Hdicts. apply list_elem_of_In in Hin.
  specialize (Hdicts oe Hin).
  destruct oe as [ev|[t|] ks|n]; simpl in Hdicts; try tauto.
  destruct lel as [|le lel]; simpl; [reflexivity|].
  now destruct ks.
Qed.

End InsertEdges.

(** ** Concrete runs for the further properties *)

Section MoreConcreteRuns.
Import Examples MoreExamples.
Local Open Scope Z_scope.

Lemma handle_is_stable_until_deleted_witness :
  bucket_instances w_created !! "b1"%string = Some b1 /\
  Forall (fun o => o <> OpDeleteBucket "b1") busy_ops /\
  bucket_instances (run_ops busy_ops w_created) !! "b1"%string = Some b1 /\
  Datastore_getitem "b1" (run_ops busy_ops w_created) = (Ok b1, run_ops busy_ops w_created).
Proof.
  assert (Hc : bucket_instances w_created !! "b1"%string = Some b1) by (vm_compute; reflexivity).
  assert (Hops : Forall (fun o => o <> OpDeleteBucket "b1") busy_ops)
    by (repeat constructor; discriminate).
  exact (conj Hc (conj Hops (handle_is_stable_until_deleted busy_ops "b1" b1 w_created Hc Hops))).
Defined.

Lemma operations_leave_other_ids_alone_witness :
  Forall (fun o => op_target o <> Some "b1"%string) other_ops /\
  bucket_instances (run_ops other_ops w_created) !! "b1"%string
  = bucket_instances w_created !! "b1"%string.
Proof.
  assert (Hops : Forall (fun o => op_target o <> Some "b1"%string) other_ops)
    by (repeat constructor; discriminate).
  exact (conj Hops (operations_leave_other_ids_alone other_ops "b1" w_created Hops)).
Defined.

Lemma evicted_handle_is_never_cached_again_witness :
  handles_inv w_created /\
  bucket_instances w_created !! "b1"%string = Some b1 /\
  forall h,
    bucket_instances (run_ops recreate_ops (snd (Datastore_delete_bucket "b1" w_created)))
      !! "b1"%string = Some h ->
    (handle b1 < handle h)%nat /\ h <> b1.
Proof.
  assert (Hinv : handles_inv w_created) by apply handles_inv_run_ops, handles_inv_init.
  assert (Hc : bucket_instances w_created !! "b1"%string = Some b1) by (vm_compute; reflexivity).
  exact (conj Hinv (conj Hc
           (evicted_handle_is_never_cached_again recreate_ops "b1" b1 w_created Hinv Hc))).
Defined.

Lemma lookup_after_delete_asks_the_storage_witness :
  storage_buckets (storage_strategy (snd (Datastore_delete_bucket "b1" w_created)))
  = (Ok ∅, ∅ : MemoryStorage.t) /\
  fst (Datastore_getitem "b1" (snd (Datastore_delete_bucket "b1" w_created))) = Raise KeyError.
Proof.
  assert (Hb : storage_buckets (storage_strategy (snd (Datastore_delete_bucket "b1" w_created)))
               = (Ok ∅, ∅ : MemoryStorage.t)) by (vm_compute; reflexivity).
  split; [exact Hb|].
  exact (f_equal fst (lookup_after_delete_asks_the_storage "b1" w_created ∅ ∅ Hb eq_refl)).
Defined.

Lemma create_bucket_on_cached_id_witness :
  bucket_instances w_created !! "b1"%string = Some b1 /\
  fst (Datastore_create_bucket "b1" "test" "client" "host" (Some noon) None w_created) = Ok b1.
Proof.
  assert (Hc : bucket_instances w_created !! "b1"%string = Some b1) by (vm_compute; reflexivity).
  split; [exact Hc|].
  exact (f_equal fst (create_bucket_on_cached_id_returns_cached_handle
                        "b1" "test" "client" "host" (Some noon) None b1 w_created Hc)).
Defined.

Lemma get_hands_over_whole_milliseconds_witness :
  valid_opt (Some mid_morning) /\ valid_opt (Some end_of_day) /\
  ((Bucket_get b1 5 (Some mid_morning) (Some end_of_day) w1 = (Raise OverflowError, w1)) \/
   (exists st' en',
      storage_calls (snd (Bucket_get b1 5 (Some mid_morning) (Some end_of_day) w1))
      = storage_calls w1 ++ [CallGetEvents (bucket_id b1) 5 st' en'] /\
      opt_ms_boundary st' /\ opt_ms_boundary en' /\
      (st' = None <-> Some mid_morning = None) /\ (en' = None <-> Some end_of_day = None))).
Proof.
  assert (Hst : valid_opt (Some mid_morning)) by (apply validb_valid; reflexivity).
  assert (Hen : valid_opt (Some end_of_day)) by (apply validb_valid; reflexivity).
  exact (conj Hst (conj Hen
           (get_hands_over_whole_milliseconds b1 5 (Some mid_morning) (Some end_of_day) w1
              Hst Hen))).
Defined.

Lemma endtime_on_a_boundary_still_moves_witness :
  valid noon /\
  (ms_boundary noon -> microsecond noon < 999000 ->
   normalize_endtime (Some noon) = Ok (Some (with_microsecond noon (microsecond noon + 1000)))).
Proof.
  assert (Hv : valid noon) by (apply validb_valid; reflexivity).
  exact (conj Hv (proj2 (endtime_on_a_boundary_still_moves noon Hv))).
Defined.

Lemma starttime_truncation_is_idempotent_witness :
  valid mid_morning /\
  (normalize_starttime (Some mid_morning) = Ok (Some mid_morning) <-> ms_boundary mid_morning).
Proof.
  assert (Hv : valid mid_morning) by (apply validb_valid; reflexivity).
  exact (conj Hv (proj2 (starttime_truncation_is_idempotent mid_morning Hv))).
Defined.

Lemma normalized_range_is_never_empty_witness :
  valid mid_morning /\ dt_le mid_morning mid_morning = true /\
  normalize_endtime (Some mid_morning) = Ok (Some (mk_datetime 2017 3 4 10 0 0 124000)) /\
  exists st',
    normalize_starttime (Some mid_morning) = Ok (Some st') /\
    dt_lt st' (mk_datetime 2017 3 4 10 0 0 124000) = true /\
    dt_le st' mid_morning = true /\
    dt_lt mid_morning (mk_datetime 2017 3 4 10 0 0 124000) = true.
Proof.
  assert (Hv : valid mid_morning) by (apply validb_valid; reflexivity).
  split; [exact Hv|]. split; [reflexivity|]. split; [reflexivity|].
  exact (normalized_range_is_never_empty mid_morning mid_morning _ Hv Hv eq_refl eq_refl).
Defined.

Lemma normalisation_is_monotone_witness :
  valid mid_morning /\ valid end_of_day /\ dt_le mid_morning end_of_day = true /\
  forall a' b',
    normalize_endtime (Some mid_morning) = Ok (Some a') ->
    normalize_endtime (Some end_of_day) = Ok (Some b') -> dt_le a' b' = true.
Proof.
  assert (Ha : valid mid_morning) by (apply validb_valid; reflexivity).
  assert (Hb : valid end_of_day) by (apply validb_valid; reflexivity).
  split; [exact Ha|]. split; [exact Hb|]. split; [reflexivity|].
  exact (proj2 (normalisation_is_monotone mid_morning end_of_day Ha Hb eq_refl)).
Defined.

Lemma insert_fails_when_the_prior_read_fails_witness :
  storage_get_events "b1" 1 None None (storage_strategy w0) = (Raise KeyError, storage_strategy w0) /\
  Bucket_insert b1 (ArgEvent (ev 5)) w0
  = (Raise KeyError, after w0 (storage_strategy w0) [CallGetEvents "b1" 1 None None] []).
Proof.
  assert (Hget : storage_get_events "b1" 1 None None (storage_strategy w0)
                 = (Raise KeyError, storage_strategy w0)) by (vm_compute; reflexivity).
  split; [exact Hget|].
  exact (proj1 (insert_fails_when_the_prior_read_fails b1 (ArgEvent (ev 5)) w0 KeyError
                  (storage_strategy w0) Hget)).
Defined.

Lemma insert_passes_on_a_storage_error_witness :
  ((exists e, ArgEvent (ev 3) = ArgEvent e) \/ (exists es, ArgEvent (ev 3) = list_of_events es)) /\
  exists call,
    insert_call "b1" (ArgEvent (ev 3)) = Some call /\
    Bucket_insert b1 (ArgEvent (ev 3)) w_failing
    = (Raise FailingStorage.disk_full,
       after w_failing (storage_strategy w_failing) [CallGetEvents "b1" 1 None None; call] []) /\
    log_records (snd (Bucket_insert b1 (ArgEvent (ev 3)) w_failing)) = log_records w_failing.
Proof.
  assert (Hshape : (exists e, ArgEvent (ev 3) = ArgEvent e) \/
                   (exists es, ArgEvent (ev 3) = list_of_events es))
    by (left; eexists; reflexivity).
  split; [exact Hshape|].
  exact (insert_passes_on_a_storage_error b1 (ArgEvent (ev 3)) w_failing [ev 5]
           (storage_strategy w_failing) FailingStorage.disk_full (storage_strategy w_failing)
           Hshape eq_refl eq_refl).
Defined.


Lemma insert_warns_iff_some_event_is_earlier_witness :
  storage_get_events "b1" 1 None None (storage_strategy w1) = (Ok w1_last, storage_strategy w1) /\
  (log_records (snd (Bucket_insert b1 (list_of_events late_events) w1)) <> log_records w1 <->
   exists le e, head w1_last = Some le /\ In e late_events /\
                dt_lt (timestamp e) (timestamp le) = true).
Proof.
  assert (Hget : storage_get_events "b1" 1 None None (storage_strategy w1)
                 = (Ok w1_last, storage_strategy w1)) by (vm_compute; reflexivity).
  split; [exact Hget|].
  refine (insert_warns_iff_some_event_is_earlier b1 (ev 7) [ev 3; ev 4] w1 w1_last
            (storage_strategy w1) w1_inserted w1_storage_after Hget _).
  vm_compute. reflexivity.
Defined.

Lemma insert_stores_plain_dicts_witness :
  Forall is_timestamped_dict plain_dicts /\
  fst (Bucket_insert b1 (ArgList plain_dicts) w1) = Raise AttributeError.
Proof.
  assert (Hd : Forall is_timestamped_dict plain_dicts) by (repeat constructor).
  split; [exact Hd|].
  refine (f_equal fst (insert_stores_plain_dicts_then_may_raise b1 _ [] w1 w1_last
                         (storage_strategy w1)
                         (fst_ok (MemoryStorage.insert_many "b1" plain_dicts (storage_strategy w1)))
                         (snd (MemoryStorage.insert_many "b1" plain_dicts (storage_strategy w1)))
                         Hd _ _)).
  - vm_compute. reflexivity.
  - vm_compute. reflexivity.
Defined.

End MoreConcreteRuns.
